(** * Env_Aware_Relational_Memory: the decaying weight store and its policy

    A shallow embedding of [env_state_controller.py] and of the demo that
    drives it, with the properties of the specification stated over it.

    Modelling decisions.
    - Weights, intensities, the decay factor and the threshold are Python
      floats.  The specification speaks of them as reals; the embedding
      computes with exact rationals in canonical form ([Qc]): Leibniz
      equality, decidable order, and every definition evaluates.  Rounding,
      overflow to infinity and NaN are outside the embedding, so the
      theorems say what the code computes step by step (one product, one
      sum, one comparison at a time) and refrain from closed forms that only
      exact arithmetic has.  The module [Binary64] evaluates the two loops on
      IEEE 754 binary64 numbers, where the difference shows.
    - A Python [dict] is a mutable object reached through a reference.  The
      object store is a finite map from locations to dictionary contents, and
      every method is a computation over that store which either returns a
      value and a new store or raises.
    - Tokens and paths are [string]s; the three-key dictionary returned by
      the policy is the record [Decision]. *)

From Stdlib Require Import QArith Qcanon Qround Lqa Ascii String.
From stdpp Require Import base numbers gmap strings list fin_maps.
From Stdlib Require PrimFloat.

Local Open Scope Qc_scope.

(** ** The object store *)

Abbreviation loc := positive (only parsing).
Abbreviation dict := (gmap string Qc) (only parsing).
Abbreviation heap := (gmap positive (gmap string Qc)) (only parsing).

Inductive exn : Type :=
  | KeyError (k : string)
  | DanglingRef (l : loc).

Inductive outcome (A : Type) : Type :=
  | Ok (a : A) (h : heap)
  | Raise (e : exn).
Arguments Ok {A} a h.
Arguments Raise {A} e.

Definition M (A : Type) : Type := heap → outcome A.

#[global] Instance M_ret : MRet M := λ A a h, Ok a h.
#[global] Instance M_bind : MBind M := λ A B f c h,
  match c h with
  | Ok a h' => f a h'
  | Raise e => Raise e
  end.

(** [for x in xs: body(x)] *)
Fixpoint for_ {A : Type} (xs : list A) (body : A → M unit) : M unit :=
  match xs with
  | [] => mret ()
  | x :: xs' => body x;; for_ xs' body
  end.

(** ** Dictionary primitives *)

(** [{}] *)
Definition dict_new : M loc := λ h,
  let l := fresh (dom h) in Ok l (<[l := ∅]> h).

(** [dict(d)] *)
Definition dict_copy (d : loc) : M loc := λ h,
  match h !! d with
  | Some m => let l := fresh (dom h) in Ok l (<[l := m]> h)
  | None => Raise (DanglingRef d)
  end.

(** [d.get(k, dflt)] *)
Definition dict_get (d : loc) (k : string) (dflt : Qc) : M Qc := λ h,
  match h !! d with
  | Some m => Ok (default dflt (m !! k)) h
  | None => Raise (DanglingRef d)
  end.

(** [d[k]] *)
Definition dict_getitem (d : loc) (k : string) : M Qc := λ h,
  match h !! d with
  | Some m =>
      match m !! k with
      | Some w => Ok w h
      | None => Raise (KeyError k)
      end
  | None => Raise (DanglingRef d)
  end.

(** [d[k] = v] *)
Definition dict_setitem (d : loc) (k : string) (v : Qc) : M unit := λ h,
  match h !! d with
  | Some m => Ok () (<[d := <[k := v]> m]> h)
  | None => Raise (DanglingRef d)
  end.

(** [del d[k]] *)
Definition dict_delitem (d : loc) (k : string) : M unit := λ h,
  match h !! d with
  | Some m =>
      match m !! k with
      | Some _ => Ok () (<[d := delete k m]> h)
      | None => Raise (KeyError k)
      end
  | None => Raise (DanglingRef d)
  end.

(** [list(d.keys())].  Python lists the keys in insertion order, the map in
    its own; [decay_loop_any_order] below shows that the one loop over this
    list gives the same result in every order. *)
Definition dict_keys (d : loc) : M (list string) := λ h,
  match h !! d with
  | Some m => Ok (map_to_list m).*1 h
  | None => Raise (DanglingRef d)
  end.

(** The contents of a dictionary, as a value. *)
Definition dict_items (d : loc) : M dict := λ h,
  match h !! d with
  | Some m => Ok m h
  | None => Raise (DanglingRef d)
  end.

(** [d.pop(k, None)] *)
Definition dict_pop (d : loc) (k : string) : M unit := λ h,
  match h !! d with
  | Some m => Ok () (<[d := delete k m]> h)
  | None => Raise (DanglingRef d)
  end.

(** [d.clear()] *)
Definition dict_clear (d : loc) : M unit := λ h,
  match h !! d with
  | Some _ => Ok () (<[d := ∅]> h)
  | None => Raise (DanglingRef d)
  end.

(** ** _TokenMemoryShim *)

Record _TokenMemoryShim : Type := {
  name : string;
  decay : Qc;
  token_weights : loc
}.

Definition _TokenMemoryShim_init (name : string) (decay : Qc)
  : M _TokenMemoryShim :=
  d ← dict_new;
  mret {| name := name; decay := decay; token_weights := d |}.

Definition update_weights (self : _TokenMemoryShim) (tokens : list string)
    (intensity : Qc) : M unit :=
  for_ tokens (λ t,
    prev ← dict_get (token_weights self) t 0;
    dict_setitem (token_weights self) t (prev * decay self + intensity)).

(** The body of the loop of [decay_weights]. *)
Definition decay_step (self : _TokenMemoryShim) (t : string) : M unit :=
  w ← dict_getitem (token_weights self) t;
  dict_setitem (token_weights self) t (w * decay self);;
  w' ← dict_getitem (token_weights self) t;
  if decide (w' < Q2Qc 1e-6) then dict_delitem (token_weights self) t
  else mret ().

Definition decay_weights (self : _TokenMemoryShim) : M unit :=
  ks ← dict_keys (token_weights self);
  for_ ks (decay_step self).

Definition get_weights (self : _TokenMemoryShim) : M loc :=
  dict_copy (token_weights self).

(** ** EnvironmentStateTracker *)

Record EnvironmentStateTracker : Type := {
  mem : _TokenMemoryShim;
  threshold : Qc
}.

Definition EnvironmentStateTracker_init (decay threshold : Qc)
  : M EnvironmentStateTracker :=
  m ← _TokenMemoryShim_init "Env" decay;
  mret {| mem := m; threshold := threshold |}.

Definition observe (self : EnvironmentStateTracker) (tokens : list string)
    (intensity : Qc) : M unit :=
  update_weights (mem self) tokens intensity.

Definition hypothesis (self : EnvironmentStateTracker) (key : string)
  : M bool :=
  ws ← get_weights (mem self);
  w ← dict_get ws key 0;
  mret (bool_decide (threshold self ≤ w)).

(** [json.loads(self.to_json())]: [to_json] prints a snapshot and the demo
    parses the text back; the round trip is taken as the identity on the
    contents of the snapshot. *)
Definition loads_to_json (self : EnvironmentStateTracker) : M dict :=
  ws ← get_weights (mem self);
  dict_items ws.

(** ** RelationalController *)

Record Decision : Type := {
  assumption : string;
  action : string;
  command : string
}.

Record RelationalController : Type := {
  env : EnvironmentStateTracker
}.

(** The default of the field [env]. *)
Definition RelationalController_init : M RelationalController :=
  e ← EnvironmentStateTracker_init (Q2Qc 0.95) (Q2Qc 0.6);
  mret {| env := e |}.

(** The double quote character, which the command template contains. *)
Definition dquote : string := String "034"%char EmptyString.

(** [s[:stop]]: a negative [stop] counts from the end, and both ends are
    clamped to the string. *)
Definition slice_to (s : string) (stop : Z) : string :=
  let n := Z.of_nat (String.length s) in
  let stop' := if (stop <? 0)%Z then Z.max 0 (stop + n) else Z.min stop n in
  substring 0 (Z.to_nat stop') s.

Definition direct_command (brief_path_md engine : string) : string :=
  "pandoc " +:+ dquote +:+ brief_path_md +:+ dquote +:+ " -o " +:+ dquote
    +:+ slice_to brief_path_md (-3) +:+ ".pdf" +:+ dquote
    +:+ " --pdf-engine=" +:+ engine.

Definition policy_for_pdf_request (self : RelationalController)
    (brief_path_md : string) (engine : string) : M Decision :=
  has_windows ← hypothesis (env self) "Windows";
  has_pwsh ← hypothesis (env self) "PowerShell";
  has_pandoc ← hypothesis (env self) "PandocInstalled";
  if has_windows && has_pwsh && has_pandoc then
    let cmd := direct_command brief_path_md engine in
    mret {| assumption := "Windows + PowerShell + Pandoc present";
            action := "Provide direct conversion command";
            command := cmd |}
  else if has_windows && has_pwsh && negb has_pandoc then
    mret {| assumption := "Windows + PowerShell; Pandoc uncertain";
            action := "Offer install path then conversion command";
            command := "winget install Pandoc.Pandoc" |}
  else
    mret {| assumption := "Environment uncertain";
            action := "Ask one clarifying question to establish environment";
            command := "Do you have Pandoc installed and can you run PowerShell on Windows?" |}.

(** The default of the parameter [engine]. *)
Definition default_engine : string := "xelatex".

(** ** The demo *)

Definition demo_path : string :=
  "C:\Users\Robin_B_Macomber\ANGEL_ML\ANGEL.AI_Business\ANGEL_System_Brief.md".

Definition demo_environment_awareness : M (dict * Decision) :=
  env ← EnvironmentStateTracker_init (Q2Qc 0.9) (Q2Qc 0.6);
  let ctrl := {| env := env |} in
  observe env ["Windows"; "PowerShell"] (Q2Qc 0.7);;
  observe env ["PandocInstalled"; "PDFExportSuccess"] (Q2Qc 0.8);;
  observe env ["PowerShell"] (Q2Qc 0.6);;
  decision ← policy_for_pdf_request ctrl demo_path default_engine;
  env_state ← loads_to_json env;
  mret (env_state, decision).

(** ** Callers *)

(** A caller's use of the store: calls of [update_weights] and of
    [decay_weights], in sequence. *)
Inductive call : Type :=
  | Update (tokens : list string) (intensity : Qc)
  | DecayPass.

Definition run_call (self : _TokenMemoryShim) (c : call) : M unit :=
  match c with
  | Update tokens intensity => update_weights self tokens intensity
  | DecayPass => decay_weights self
  end.

Definition positive_intensity (c : call) : Prop :=
  match c with
  | Update _ intensity => 0 < intensity
  | DecayPass => True
  end.

(** [for _ in range(n): c] *)
Fixpoint times (n : nat) (c : M unit) : M unit :=
  match n with
  | O => mret ()
  | S n' => c;; times n' c
  end.

(** What a caller may do to a dictionary it holds a reference to. *)
Inductive mutation : Type :=
  | SetItem (k : string) (v : Qc)
  | PopItem (k : string)
  | Clear.

Definition mutate (d : loc) (mu : mutation) : M unit :=
  match mu with
  | SetItem k v => dict_setitem d k v
  | PopItem k => dict_pop d k
  | Clear => dict_clear d
  end.

(** What a caller may ask of the tracker, and what it gets to see. *)
Inductive store_op : Type :=
  | OpObserve (tokens : list string) (intensity : Qc)
  | OpDecay
  | OpSnapshot
  | OpHypothesis (key : string).

Inductive observation : Type :=
  | Done
  | Weights (m : dict)
  | Belief (b : bool).

Definition run_op (self : EnvironmentStateTracker) (op : store_op)
  : M observation :=
  match op with
  | OpObserve tokens intensity => observe self tokens intensity;; mret Done
  | OpDecay => decay_weights (mem self);; mret Done
  | OpSnapshot =>
      ws ← get_weights (mem self); m ← dict_items ws; mret (Weights m)
  | OpHypothesis key => b ← hypothesis self key; mret (Belief b)
  end.

Fixpoint run_ops (self : EnvironmentStateTracker) (ops : list store_op)
  : M (list observation) :=
  match ops with
  | [] => mret []
  | op :: ops' =>
      o ← run_op self op; os ← run_ops self ops'; mret (o :: os)
  end.

(** ** What the two loops compute on the contents of the dictionary *)

Definition update_step (d i : Qc) (m : dict) (t : string) : dict :=
  <[t := default 0 (m !! t) * d + i]> m.

Definition update_dict (d i : Qc) (tokens : list string) (m : dict) : dict :=
  foldl (update_step d i) m tokens.

Definition decay_entry (d w : Qc) : option Qc :=
  if decide (w * d < Q2Qc 1e-6) then None else Some (w * d).

Definition decay_key (d : Qc) (m : dict) (t : string) : dict :=
  match m !! t with
  | Some w =>
      match decay_entry d w with
      | Some w' => <[t := w']> m
      | None => delete t m
      end
  | None => m
  end.

Definition decay_dict (d : Qc) (m : dict) : dict := omap (decay_entry d) m.

(** What [hypothesis] answers on the contents [m] of the store. *)
Definition holds (self : EnvironmentStateTracker) (m : dict) (key : string)
  : bool :=
  bool_decide (threshold self ≤ default 0 (m !! key)).

(** The three records the policy chooses from. *)
Definition direct_decision (brief_path_md engine : string) : Decision :=
  {| assumption := "Windows + PowerShell + Pandoc present";
     action := "Provide direct conversion command";
     command := direct_command brief_path_md engine |}.

Definition install_decision : Decision :=
  {| assumption := "Windows + PowerShell; Pandoc uncertain";
     action := "Offer install path then conversion command";
     command := "winget install Pandoc.Pandoc" |}.

Definition clarify_decision : Decision :=
  {| assumption := "Environment uncertain";
     action := "Ask one clarifying question to establish environment";
     command := "Do you have Pandoc installed and can you run PowerShell on Windows?" |}.

(** The number of times [t] is listed in [tokens]. *)
Definition occurrences (t : string) (tokens : list string) : nat :=
  length (filter (λ x, x = t) tokens).

(** [d^(k-1) + ... + d + 1], and 0 for [k = 0]. *)
Fixpoint geometric (d : Qc) (k : nat) : Qc :=
  match k with
  | O => 0
  | S k' => d ^ k' + geometric d k'
  end.

(** All weights of a dictionary are non-negative. *)
Definition nonneg (m : dict) : Prop := map_Forall (λ _ w, 0 ≤ w) m.

(** [d^n] on plain rationals, for the arithmetic behind repeated decay. *)
Fixpoint Qpow (d : Q) (n : nat) : Q :=
  match n with
  | O => 1%Q
  | S n' => (d * Qpow d n')%Q
  end.

(** The contents after [n] decay passes. *)
Fixpoint decay_passes (d : Qc) (n : nat) (m : dict) : dict :=
  match n with
  | O => m
  | S n' => decay_passes d n' (decay_dict d m)
  end.

(** ** Concrete stores used in the examples *)

(** A shim whose dictionary lives at location 1. *)
Definition shim_at_1 (decay : Qc) : _TokenMemoryShim :=
  {| name := "Env"; decay := decay; token_weights := 1%positive |}.

Definition tracker_at_1 (decay threshold : Qc) : EnvironmentStateTracker :=
  {| mem := shim_at_1 decay; threshold := threshold |}.

(** The object store that holds the single dictionary [m] at location 1. *)
Definition heap_of (m : dict) : heap := {[ 1%positive := m ]}.

Definition windows_only : dict := {[ "Windows" := Q2Qc 0.7 ]}.

Definition windows_pwsh : dict :=
  <["PowerShell" := Q2Qc 0.7]> windows_only.

Definition all_tools : dict :=
  <["PandocInstalled" := Q2Qc 0.8]> windows_pwsh.

(** The weights the demo ends with. *)
Definition demo_weights : dict :=
  <["PDFExportSuccess" := Q2Qc 0.8]>
    (<["PandocInstalled" := Q2Qc 0.8]>
       (<["PowerShell" := Q2Qc 1.23]> {[ "Windows" := Q2Qc 0.7 ]})).

(** The three observations of the demo, on a tracker made for them. *)
Definition demo_observations : M EnvironmentStateTracker :=
  env ← EnvironmentStateTracker_init (Q2Qc 0.9) (Q2Qc 0.6);
  observe env ["Windows"; "PowerShell"] (Q2Qc 0.7);;
  observe env ["PandocInstalled"; "PDFExportSuccess"] (Q2Qc 0.8);;
  observe env ["PowerShell"] (Q2Qc 0.6);;
  mret env.

(** ** Further callers *)

(** A call whose intensity, if it has one, is at least [imin]. *)
Definition intensity_at_least (imin : Qc) (c : call) : Prop :=
  match c with
  | Update _ intensity => imin ≤ intensity
  | DecayPass => True
  end.

(** Every weight is at least [imin] or at least 1e-6. *)
Definition above (imin : Qc) (m : dict) : Prop :=
  map_Forall (λ _ w, imin ≤ w ∨ Q2Qc 1e-6 ≤ w) m.

(** ** The steps of the two loops, one after the other *)

(** [k] decay-and-add steps [w ↦ w * d + i] from [prev]. *)
Definition steps (d i : Qc) (k : nat) (prev : Qc) : Qc :=
  Nat.iter k (λ w, w * d + i) prev.

(** [k] multiplications by [d] from [w]. *)
Definition decayed (d : Qc) (k : nat) (w : Qc) : Qc :=
  Nat.iter k (λ x, x * d) w.

(** A call that does not list the token [t]. *)
Definition leaves_alone (t : string) (c : call) : Prop :=
  match c with
  | Update tokens _ => t ∉ tokens
  | DecayPass => True
  end.

(** The number of decay passes among the calls. *)
Fixpoint passes (calls : list call) : nat :=
  match calls with
  | [] => O
  | DecayPass :: calls' => S (passes calls')
  | Update _ _ :: calls' => passes calls'
  end.

(** ** The two loops on binary64 numbers *)

(** What the loops of [update_weights] and of [decay_weights] compute on the
    contents of the dictionary, as [update_dict] and [decay_dict] above, with
    the weights as IEEE 754 binary64 numbers, rounded as Python rounds. *)
Module Binary64.
Import PrimFloat.
#[local] Set Warnings "-inexact-float".

Definition update_step (d i : float) (m : gmap string float) (t : string)
  : gmap string float :=
  <[t := (default 0 (m !! t) * d + i)%float]> m.

Definition update_dict (d i : float) (tokens : list string)
    (m : gmap string float) : gmap string float :=
  foldl (update_step d i) m tokens.

Definition decay_entry (d w : float) : option float :=
  if (w * d <? 1e-6)%float then None else Some (w * d)%float.

Definition decay_dict (d : float) (m : gmap string float)
  : gmap string float :=
  omap (decay_entry d) m.

(** The largest binary64 number below 1. *)
Definition below_one : float := 0.9999999999999999%float.

End Binary64.

(** * Properties *)

(** ** Running the methods *)

Ltac run := unfold mbind, M_bind, mret, M_ret; simpl.

(** Closed decidable statements, equations between rationals or between
    dictionaries among them, are settled by evaluation. *)
Ltac by_evaluation := apply (bool_decide_unpack _); vm_compute; exact I.

(** Membership in a list that is written out. *)
Ltac in_list :=
  repeat first [apply list_elem_of_here | apply list_elem_of_further].

Section runs.
Context (self : _TokenMemoryShim).
Let l := token_weights self.
Let d := decay self.

Lemma update_weights_run tokens i h m :
  h !! l = Some m →
  update_weights self tokens i h = Ok () (<[l := update_dict d i tokens m]> h).
Proof.
  unfold update_weights. revert h m.
  induction tokens as [|t ts IH]; intros h m Hm; simpl.
  - run. by rewrite insert_id.
  - run. unfold dict_get at 1. fold l. rewrite Hm.
    unfold dict_setitem at 1. fold l. rewrite Hm.
    rewrite (IH _ (update_step d i m t)) by apply lookup_insert_eq.
    by rewrite insert_insert_eq.
Qed.

Lemma decay_step_run t h m w :
  h !! l = Some m → m !! t = Some w →
  decay_step self t h = Ok () (<[l := decay_key d m t]> h).
Proof.
  intros Hm Ht. unfold decay_step, decay_key, decay_entry. run.
  unfold dict_getitem at 1. fold l. rewrite Hm, Ht.
  unfold dict_setitem. fold l. rewrite Hm.
  unfold dict_getitem. rewrite !lookup_insert_eq. fold d.
  destruct (decide (w * d < Q2Qc 1e-6)) as [Hlt|Hge].
  - unfold dict_delitem. rewrite !lookup_insert_eq.
    by rewrite insert_insert_eq, delete_insert_eq.
  - done.
Qed.

Lemma decay_key_lookup m t k :
  decay_key d m t !! k =
    if decide (k = t) then m !! t ≫= decay_entry d else m !! k.
Proof.
  unfold decay_key. destruct (decide (k = t)) as [->|Hne].
  - destruct (m !! t) as [w|] eqn:Ht; simpl; [|done].
    destruct (decay_entry d w); [apply lookup_insert_eq|apply lookup_delete_eq].
  - destruct (m !! t) as [w|] eqn:Ht; [|done].
    destruct (decay_entry d w);
      [by rewrite lookup_insert_ne|by rewrite lookup_delete_ne].
Qed.

Lemma decay_keys_lookup ks m k :
  NoDup ks →
  foldl (decay_key d) m ks !! k =
    if decide (k ∈ ks) then m !! k ≫= decay_entry d else m !! k.
Proof.
  revert m. induction ks as [|t ts IH]; intros m Hnd; cbn [foldl].
  - case_decide; [set_solver|done].
  - apply NoDup_cons in Hnd as [Hnot Hnd]. rewrite IH by done.
    rewrite decay_key_lookup.
    destruct (decide (k = t)) as [->|Hne].
    + rewrite decide_False by done.
      rewrite decide_True by apply list_elem_of_here. done.
    + destruct (decide (k ∈ ts)) as [Hin|Hnin].
      * rewrite decide_True by (by apply list_elem_of_further). done.
      * rewrite decide_False; [done|].
        by intros [?|?]%elem_of_cons.
Qed.

(** The loop of [decay_weights] over any duplicate-free list of keys that
    are present: no [KeyError], and the keys are handled independently. *)
Lemma decay_loop_run ks h m :
  NoDup ks → (∀ k, k ∈ ks → is_Some (m !! k)) →
  h !! l = Some m →
  for_ ks (decay_step self) h = Ok () (<[l := foldl (decay_key d) m ks]> h).
Proof.
  revert h m. induction ks as [|t ts IH]; intros h m Hnd Hin Hm; simpl.
  - run. by rewrite insert_id.
  - apply NoDup_cons in Hnd as [Hnot Hnd].
    destruct (Hin t) as [w Hw]; [set_solver|].
    run. rewrite (decay_step_run t h m w) by done.
    rewrite (IH _ (decay_key d m t)).
    + by rewrite insert_insert_eq.
    + done.
    + intros k Hk. rewrite decay_key_lookup.
      case_decide; [set_solver|]. apply Hin. set_solver.
    + apply lookup_insert_eq.
Qed.

(** The order in which the keys are visited does not matter. *)
Lemma decay_loop_any_order ks h m :
  NoDup ks → (∀ k, k ∈ ks ↔ is_Some (m !! k)) →
  h !! l = Some m →
  for_ ks (decay_step self) h = Ok () (<[l := decay_dict d m]> h).
Proof.
  intros Hnd Hks Hm. rewrite (decay_loop_run ks h m); [|done| |done];
    [|intros k Hk; by apply Hks].
  f_equal. f_equal. apply map_eq; intros k.
  rewrite decay_keys_lookup by done. unfold decay_dict. rewrite lookup_omap.
  destruct (decide (k ∈ ks)) as [Hin|Hnin]; [done|].
  destruct (m !! k) eqn:Hk; [|done].
  exfalso. apply Hnin, Hks. eauto.
Qed.

Lemma decay_weights_run h m :
  h !! l = Some m →
  decay_weights self h = Ok () (<[l := decay_dict d m]> h).
Proof.
  intros Hm. unfold decay_weights. run. unfold dict_keys. fold l. rewrite Hm.
  apply decay_loop_any_order; [apply NoDup_fst_map_to_list| |done].
  intros k. rewrite list_elem_of_fmap. split.
  - intros [[k' w] [-> Hin]]. apply elem_of_map_to_list in Hin. eauto.
  - intros [w Hw]. exists (k, w). split; [done|]. by apply elem_of_map_to_list.
Qed.

Lemma get_weights_run h m :
  h !! l = Some m →
  get_weights self h = Ok (fresh (dom h)) (<[fresh (dom h) := m]> h).
Proof. intros Hm. unfold get_weights, dict_copy. fold l. by rewrite Hm. Qed.

End runs.

(** A fresh location is not one of the store's. *)
Lemma fresh_not_allocated {V} (h : gmap positive V) (l : positive) (v : V) :
  h !! l = Some v → l ≠ fresh (dom h).
Proof.
  intros Hl ->. apply (is_fresh (dom h)). apply elem_of_dom. eauto.
Qed.

Lemma alloc_extends {V} (h : gmap positive V) (v : V) :
  h ⊆ <[fresh (dom h) := v]> h.
Proof.
  apply insert_subseteq, not_elem_of_dom, is_fresh.
Qed.

Lemma alloc_lookup {V} (h : gmap positive V) (l : positive) (v w : V) :
  h !! l = Some v → <[fresh (dom h) := w]> h !! l = Some v.
Proof.
  intros Hl. rewrite lookup_insert_ne; [done|].
  intros Heq. by apply (fresh_not_allocated h l v).
Qed.

Lemma hypothesis_run (self : EnvironmentStateTracker) key h m :
  h !! token_weights (mem self) = Some m →
  hypothesis self key h = Ok (holds self m key) (<[fresh (dom h) := m]> h).
Proof.
  intros Hm. unfold hypothesis. run.
  rewrite (get_weights_run _ h m) by done.
  unfold dict_get. by rewrite lookup_insert_eq.
Qed.

Lemma policy_run (self : RelationalController) path engine h m :
  h !! token_weights (mem (env self)) = Some m →
  ∃ h', h ⊆ h' ∧
    policy_for_pdf_request self path engine h =
      Ok (if holds (env self) m "Windows" && holds (env self) m "PowerShell"
             && holds (env self) m "PandocInstalled"
          then direct_decision path engine
          else if holds (env self) m "Windows"
                  && holds (env self) m "PowerShell"
                  && negb (holds (env self) m "PandocInstalled")
          then install_decision
          else clarify_decision) h'.
Proof.
  intros Hm. unfold policy_for_pdf_request. run.
  rewrite (hypothesis_run _ _ h m) by done.
  set (h1 := <[fresh (dom h) := m]> h).
  assert (Hm1 : h1 !! token_weights (mem (env self)) = Some m)
    by by apply alloc_lookup.
  rewrite (hypothesis_run _ _ h1 m) by done.
  set (h2 := <[fresh (dom h1) := m]> h1).
  assert (Hm2 : h2 !! token_weights (mem (env self)) = Some m)
    by by apply alloc_lookup.
  rewrite (hypothesis_run _ _ h2 m) by done.
  set (h3 := <[fresh (dom h2) := m]> h2).
  exists h3. split.
  - trans h1; [apply alloc_extends|]. trans h2; apply alloc_extends.
  - by destruct (holds _ m "Windows"), (holds _ m "PowerShell"),
      (holds _ m "PandocInstalled").
Qed.

(** ** The contents after [update_weights] *)

Lemma update_step_lookup d i (m : gmap string Qc) t k :
  update_step d i m t !! k =
    if decide (k = t) then Some (default 0 (m !! t) * d + i) else m !! k.
Proof.
  unfold update_step. case_decide as Hk.
  - subst k. apply lookup_insert_eq.
  - by apply lookup_insert_ne.
Qed.

Lemma occurrences_cons t x tokens :
  occurrences t (x :: tokens) =
    if decide (x = t) then S (occurrences t tokens) else occurrences t tokens.
Proof.
  unfold occurrences. rewrite filter_cons. by case_decide.
Qed.

Lemma occurrences_0 t tokens : t ∉ tokens → occurrences t tokens = 0%nat.
Proof.
  induction tokens as [|x ts IH]; [done|]. intros Hnot.
  rewrite occurrences_cons. case_decide; [set_solver|]. apply IH. set_solver.
Qed.

Lemma occurrences_NoDup t tokens :
  NoDup tokens → t ∈ tokens → occurrences t tokens = 1%nat.
Proof.
  induction 1 as [|x ts Hx Hnd IH]; [set_solver|]. intros Hin.
  rewrite occurrences_cons. case_decide as Hxt.
  - subst x. by rewrite occurrences_0.
  - apply IH. by apply elem_of_cons in Hin as [->|Hin].
Qed.

(** One decay-and-add step for every occurrence of the token. *)
Lemma update_dict_lookup d i tokens (m : gmap string Qc) t :
  update_dict d i tokens m !! t =
    match occurrences t tokens with
    | O => m !! t
    | S _ as k => Some (default 0 (m !! t) * d ^ k + i * geometric d k)
    end.
Proof.
  unfold update_dict. revert m.
  induction tokens as [|x ts IH]; intros m; [done|].
  cbn [foldl]. rewrite IH, occurrences_cons, update_step_lookup.
  destruct (decide (x = t)) as [->|Hne].
  - rewrite decide_True by done.
    destruct (occurrences t ts) as [|k]; f_equal; simpl; ring.
  - rewrite decide_False by done. done.
Qed.

Lemma update_dict_nonneg d i tokens (m : gmap string Qc) :
  0 ≤ d → 0 ≤ i → nonneg m → nonneg (update_dict d i tokens m).
Proof.
  intros Hd Hi. unfold update_dict. revert m.
  induction tokens as [|x ts IH]; intros m Hm; [done|].
  cbn [foldl]. apply IH. intros k w. rewrite update_step_lookup.
  case_decide; [|apply Hm]. intros [= <-].
  apply Qcplus_nonneg_nonneg; [|done]. apply Qcmult_nonneg_nonneg; [|done].
  destruct (m !! x) as [w|] eqn:Hx; simpl; [by apply (Hm x)|done].
Qed.

(** ** The store as its methods leave it *)

Lemma init_run name d (h0 : gmap positive (gmap string Qc)) :
  _TokenMemoryShim_init name d h0 =
    Ok {| name := name; decay := d; token_weights := fresh (dom h0) |}
       (<[fresh (dom h0) := ∅]> h0).
Proof. reflexivity. Qed.

Lemma update_weights_lookup (self : _TokenMemoryShim) tokens i
    (h : gmap positive (gmap string Qc)) (m : gmap string Qc) :
  h !! token_weights self = Some m →
  ∃ m',
    update_weights self tokens i h = Ok () (<[token_weights self := m']> h)
    ∧ <[token_weights self := m']> h !! token_weights self = Some m'
    ∧ ∀ t, m' !! t =
        match occurrences t tokens with
        | O => m !! t
        | S _ as k =>
            Some (default 0 (m !! t) * decay self ^ k
                  + i * geometric (decay self) k)
        end.
Proof.
  intros Hm. exists (update_dict (decay self) i tokens m).
  split; [by apply update_weights_run|]. split; [apply lookup_insert_eq|].
  intros t. apply update_dict_lookup.
Qed.

(** C2, amended: for every token of a duplicate-free token list and every
    intensity [i > 0], [update_weights] makes the weight
    [previous * decay + i], with 0 for the previous weight of an absent token,
    and leaves the tokens that are not listed alone; on a fresh store
    [update_weights ["X"] i] gives "X" the weight [i]; a second such call
    gives [i * decay + i], and with [decay = 1] that is [2 * i]. *)
Theorem update_recomputes_weight (d i : Qc) :
  0 < i →
  (∀ (self : _TokenMemoryShim) (tokens : list string) (h : heap) (m : dict),
     h !! token_weights self = Some m → NoDup tokens →
     ∃ m',
       update_weights self tokens i h = Ok () (<[token_weights self := m']> h)
       ∧ (∀ t, t ∈ tokens →
            m' !! t = Some (default 0 (m !! t) * decay self + i))
       ∧ (∀ t, t ∉ tokens → m' !! t = m !! t))
  ∧ (∀ (name X : string) (h0 : heap),
       ∃ self h1 h2 h3,
         _TokenMemoryShim_init name d h0 = Ok self h1
         ∧ update_weights self [X] i h1 = Ok () h2
         ∧ h2 !! token_weights self = Some {[ X := i ]}
         ∧ update_weights self [X] i h2 = Ok () h3
         ∧ h3 !! token_weights self = Some {[ X := i * d + i ]})
  ∧ (d = 1 → i * d + i = 2 * i).
Proof.
  intros Hi. split; [|split].
  - intros self tokens h m Hm Hnd.
    destruct (update_weights_lookup self tokens i h m Hm)
      as (m' & Hrun & _ & Hlook).
    exists m'. split; [done|]. split.
    + intros t Ht. rewrite Hlook, (occurrences_NoDup t tokens) by done.
      f_equal. simpl. ring.
    + intros t Ht. by rewrite Hlook, (occurrences_0 t tokens).
  - intros name X h0.
    set (self := {| name := name; decay := d;
                    token_weights := fresh (dom h0) |}).
    set (h1 := <[fresh (dom h0) := ∅]> h0).
    assert (H1 : h1 !! token_weights self = Some ∅)
      by apply lookup_insert_eq.
    set (h2 := <[token_weights self := update_dict d i [X] ∅]> h1).
    assert (H2 : h2 !! token_weights self = Some {[ X := i ]}).
    { unfold h2. rewrite lookup_insert_eq. f_equal. simpl.
      unfold update_step. rewrite lookup_empty. simpl.
      rewrite Qcmult_0_l, Qcplus_0_l. apply insert_empty. }
    exists self, h1, h2,
      (<[token_weights self := update_dict d i [X] {[ X := i ]}]> h2).
    split; [apply init_run|].
    split; [by apply (update_weights_run self [X] i h1 ∅)|].
    split; [done|].
    split; [by apply (update_weights_run self [X] i h2)|].
    rewrite lookup_insert_eq. f_equal. simpl.
    unfold update_step. rewrite lookup_singleton_eq. simpl.
    apply insert_singleton_eq.
  - intros ->. ring.
Qed.

Lemma update_recomputes_weight_witness :
  0 < Q2Qc 0.7
  ∧ ∃ self h1 h2 h3,
      _TokenMemoryShim_init "Env" (Q2Qc 0.9) ∅ = Ok self h1
      ∧ update_weights self ["X"] (Q2Qc 0.7) h1 = Ok () h2
      ∧ h2 !! token_weights self = Some {[ "X" := Q2Qc 0.7 ]}
      ∧ update_weights self ["X"] (Q2Qc 0.7) h2 = Ok () h3
      ∧ h3 !! token_weights self
        = Some {[ "X" := Q2Qc 0.7 * Q2Qc 0.9 + Q2Qc 0.7 ]}.
Proof.
  split; [reflexivity|].
  apply (update_recomputes_weight (Q2Qc 0.9) (Q2Qc 0.7)); reflexivity.
Defined.

(** C2 as stated fails at the end of the allowed range: with [decay = 1] and
    [i = 0.7], both within the ranges the specification gives, two calls of
    [update_weights ["X"] i] on a fresh store leave exactly [2 * i]. *)
Lemma update_twice_at_decay_one :
  (0 < 1 ≤ 1) ∧ 0 < Q2Qc 0.7
  ∧ ∃ self h1 h2 h3,
      _TokenMemoryShim_init "Env" 1 ∅ = Ok self h1
      ∧ update_weights self ["X"] (Q2Qc 0.7) h1 = Ok () h2
      ∧ update_weights self ["X"] (Q2Qc 0.7) h2 = Ok () h3
      ∧ h3 !! token_weights self = Some {[ "X" := 2 * Q2Qc 0.7 ]}.
Proof.
  split; [by vm_compute|]. split; [reflexivity|].
  eexists _, _, _, _. split; [reflexivity|].
  split; [reflexivity|]. split; [reflexivity|].
  by_evaluation.
Qed.

(** The weight of a token after a call, as the steps the loop has taken. *)
Lemma update_dict_lookup_steps d i tokens (m : gmap string Qc) t :
  update_dict d i tokens m !! t =
    match occurrences t tokens with
    | O => m !! t
    | S _ as k => Some (steps d i k (default 0 (m !! t)))
    end.
Proof.
  unfold update_dict, steps. revert m.
  induction tokens as [|x ts IH]; intros m; [done|].
  cbn [foldl]. rewrite IH, occurrences_cons, update_step_lookup.
  destruct (decide (x = t)) as [->|Hne].
  - rewrite decide_True by done. cbn [default].
    destruct (occurrences t ts) as [|k]; [done|].
    by rewrite (Nat.iter_succ_r (S k)).
  - by rewrite decide_False by done.
Qed.

(** C10, amended: [update_weights] goes through its token list and applies
    the decay-and-add step once for every occurrence: a token listed [k >= 1]
    times ends with what [k] steps [w ↦ w * decay + i], one after the other,
    make of its previous weight, a token that is not listed keeps what it
    had, and a token listed twice in one call ends with
    [(prev * decay + i) * decay + i]; where one step leaves the previous
    weight in place, [prev * decay + i = prev], that is [prev * decay + i]
    again. *)
Theorem update_repeats_per_occurrence (self : _TokenMemoryShim)
    (tokens : list string) (i : Qc) (t : string) (h : heap) (m : dict) :
  h !! token_weights self = Some m →
  (∃ m',
     update_weights self tokens i h = Ok () (<[token_weights self := m']> h)
     ∧ (∀ k, occurrences t tokens = S k →
          m' !! t = Some (steps (decay self) i (S k) (default 0 (m !! t))))
     ∧ (occurrences t tokens = O → m' !! t = m !! t))
  ∧ (∃ m',
       update_weights self [t; t] i h = Ok () (<[token_weights self := m']> h)
       ∧ m' !! t
         = Some ((default 0 (m !! t) * decay self + i) * decay self + i))
  ∧ (default 0 (m !! t) * decay self + i = default 0 (m !! t) →
     (default 0 (m !! t) * decay self + i) * decay self + i
     = default 0 (m !! t) * decay self + i).
Proof.
  intros Hm. split; [|split].
  - exists (update_dict (decay self) i tokens m).
    split; [by apply update_weights_run|]. split.
    + intros k Hk. by rewrite update_dict_lookup_steps, Hk.
    + intros Hk. by rewrite update_dict_lookup_steps, Hk.
  - exists (update_dict (decay self) i [t; t] m).
    split; [by apply update_weights_run|].
    by rewrite update_dict_lookup_steps, !occurrences_cons, !decide_True.
  - intros Hfix. by rewrite Hfix.
Qed.

Lemma update_repeats_per_occurrence_witness :
  ∃ m',
    update_weights (shim_at_1 (Q2Qc 0.9)) ["Windows"; "Windows"] (Q2Qc 0.6)
      (heap_of windows_only)
    = Ok () (<[1%positive := m']> (heap_of windows_only))
    ∧ m' !! "Windows"
      = Some ((default 0 (windows_only !! "Windows") * Q2Qc 0.9 + Q2Qc 0.6)
              * Q2Qc 0.9 + Q2Qc 0.6).
Proof.
  destruct (update_repeats_per_occurrence (shim_at_1 (Q2Qc 0.9))
              ["Windows"; "Windows"] (Q2Qc 0.6) "Windows"
              (heap_of windows_only) windows_only)
    as (_ & (m' & Hrun & Hlook) & _); [reflexivity|].
  exists m'. split; [exact Hrun|exact Hlook].
Defined.

(** C10 as stated fails where one step leaves the weight in place: at decay
    0.5 and intensity 1 a token that holds 2 and is listed twice ends with
    2, which is [prev * decay + i]. *)
Lemma update_twice_at_fixed_point :
  ∃ m',
    update_weights (shim_at_1 (Q2Qc 0.5)) ["X"; "X"] 1
      (heap_of {[ "X" := 2 ]})
    = Ok () (heap_of m')
    ∧ m' !! "X" = Some (2 * Q2Qc 0.5 + 1).
Proof.
  exists {[ "X" := 2 ]}. split; [|by_evaluation].
  rewrite (update_weights_run _ _ _ _ {[ "X" := 2 ]}) by reflexivity.
  apply (f_equal (Ok ())). by_evaluation.
Qed.

(** The same token twice and another one in between, from weight 0.7 at
    decay 0.9 and intensity 0.6: 0.7 * 0.81 + 0.6 * 1.9 = 1.707. *)
Example update_listed_twice :
  update_weights (shim_at_1 (Q2Qc 0.9)) ["Windows"; "PowerShell"; "Windows"]
    (Q2Qc 0.6) (heap_of windows_only)
  = Ok () (heap_of (<["PowerShell" := Q2Qc 0.6]>
                      {[ "Windows" := Q2Qc 1.707 ]})).
Proof.
  rewrite (update_weights_run _ _ _ _ windows_only) by reflexivity.
  apply (f_equal (Ok ())). by_evaluation.
Qed.

(** ** The contents after [decay_weights] *)

Lemma decay_dict_lookup d (m : gmap string Qc) t :
  decay_dict d m !! t = m !! t ≫= decay_entry d.
Proof. unfold decay_dict. apply lookup_omap. Qed.

Lemma decay_entry_Some d w w' :
  decay_entry d w = Some w' ↔ w' = w * d ∧ ¬ w * d < Q2Qc 1e-6.
Proof.
  unfold decay_entry. case_decide as Hlt; split.
  - done.
  - by intros [_ Hge].
  - by intros [= <-].
  - by intros [-> _].
Qed.

Lemma decay_dict_nonneg d (m : gmap string Qc) : nonneg (decay_dict d m).
Proof.
  intros t w'. rewrite decay_dict_lookup.
  destruct (m !! t) as [w|]; simpl; [|done].
  intros [-> Hge]%decay_entry_Some.
  apply Qcnot_lt_le in Hge. by trans (Q2Qc 1e-6).
Qed.

(** C4: a decay pass raises nothing; it replaces every stored weight [w] by
    [w * decay] and deletes exactly the entries for which that product is
    below 1e-6, so that no entry below 1e-6 is left, and it adds no entry. *)
Theorem decay_pass_scales_and_prunes (self : _TokenMemoryShim) (h : heap)
    (m : dict) :
  h !! token_weights self = Some m →
  ∃ m',
    decay_weights self h = Ok () (<[token_weights self := m']> h)
    ∧ (∀ t w, m !! t = Some w →
         m' !! t = if decide (w * decay self < Q2Qc 1e-6) then None
                   else Some (w * decay self))
    ∧ (∀ t, m !! t = None → m' !! t = None)
    ∧ (∀ t w', m' !! t = Some w' → ¬ w' < Q2Qc 1e-6).
Proof.
  intros Hm. exists (decay_dict (decay self) m).
  split; [by apply decay_weights_run|]. repeat split.
  - intros t w Ht. by rewrite decay_dict_lookup, Ht.
  - intros t Ht. by rewrite decay_dict_lookup, Ht.
  - intros t w'. rewrite decay_dict_lookup.
    destruct (m !! t) as [w|]; simpl; [|done].
    by intros [-> Hge]%decay_entry_Some.
Qed.

Lemma decay_pass_scales_and_prunes_witness :
  heap_of all_tools !! token_weights (shim_at_1 (Q2Qc 0.9)) = Some all_tools
  ∧ ∃ m',
      decay_weights (shim_at_1 (Q2Qc 0.9)) (heap_of all_tools)
        = Ok () (<[1%positive := m']> (heap_of all_tools))
      ∧ m' !! "Windows" = Some (Q2Qc 0.63).
Proof.
  split; [reflexivity|].
  destruct (decay_pass_scales_and_prunes (shim_at_1 (Q2Qc 0.9))
              (heap_of all_tools) all_tools)
    as (m' & Hrun & Hscale & _); [reflexivity|].
  exists m'. split; [exact Hrun|].
  rewrite (Hscale "Windows" (Q2Qc 0.7)) by reflexivity.
  rewrite decide_False by (by vm_compute).
  by_evaluation.
Defined.

(** A weight that a pass brings below 1e-6 is pruned by that pass. *)
Example decay_pass_prunes_small :
  decay_weights (shim_at_1 (Q2Qc 0.5))
    (heap_of (<["Stale" := Q2Qc 1.5e-6]> windows_only))
  = Ok () (heap_of {[ "Windows" := Q2Qc 0.35 ]}).
Proof.
  rewrite (decay_weights_run _ _ (<["Stale" := Q2Qc 1.5e-6]> windows_only))
    by reflexivity.
  apply (f_equal (Ok ())). by_evaluation.
Qed.

(** ** Weights stay non-negative *)

Lemma run_call_nonneg (self : _TokenMemoryShim) (c : call)
    (h : gmap positive (gmap string Qc)) (m : gmap string Qc) :
  0 ≤ decay self → positive_intensity c →
  h !! token_weights self = Some m → nonneg m →
  ∃ m', run_call self c h = Ok () (<[token_weights self := m']> h)
        ∧ nonneg m'.
Proof.
  intros Hd Hc Hm Hnn. destruct c as [tokens i|]; simpl in *.
  - exists (update_dict (decay self) i tokens m).
    split; [by apply update_weights_run|].
    apply update_dict_nonneg; [done| |done]. by apply Qclt_le_weak.
  - exists (decay_dict (decay self) m).
    split; [by apply decay_weights_run|]. apply decay_dict_nonneg.
Qed.

Lemma run_calls_nonneg (self : _TokenMemoryShim) (calls : list call)
    (h : gmap positive (gmap string Qc)) (m : gmap string Qc) :
  0 ≤ decay self → Forall positive_intensity calls →
  h !! token_weights self = Some m → nonneg m →
  ∃ m', for_ calls (run_call self) h = Ok () (<[token_weights self := m']> h)
        ∧ nonneg m'.
Proof.
  intros Hd Hcalls. revert h m.
  induction Hcalls as [|c cs Hc Hcs IH]; intros h m Hm Hnn.
  - exists m. split; [|done]. simpl. run. by rewrite insert_id.
  - destruct (run_call_nonneg self c h m Hd Hc Hm Hnn) as (m1 & Hrun1 & Hnn1).
    destruct (IH (<[token_weights self := m1]> h) m1) as (m2 & Hrun2 & Hnn2);
      [apply lookup_insert_eq|done|].
    exists m2. split; [|done].
    simpl. run. rewrite Hrun1, Hrun2. by rewrite insert_insert_eq.
Qed.

(** C6: on a store created with a decay factor in (0, 1], after every prefix
    of a sequence of [update_weights] calls with positive intensities and
    [decay_weights] calls, the calls have raised nothing and every weight in
    the dictionary is at least 0. *)
Theorem weights_never_negative (name : string) (d : Qc) (calls : list call)
    (h0 : heap) :
  0 < d ≤ 1 → Forall positive_intensity calls →
  ∀ pre post, calls = pre ++ post →
    ∃ self h m,
      (self ← _TokenMemoryShim_init name d;
       for_ pre (run_call self);; mret self) h0 = Ok self h
      ∧ h !! token_weights self = Some m
      ∧ ∀ t w, m !! t = Some w → 0 ≤ w.
Proof.
  intros [Hd _] Hcalls pre post ->. apply Forall_app in Hcalls as [Hpre _].
  run.
  set (self := {| name := name; decay := d;
                  token_weights := fresh (dom h0) |}).
  set (h1 := <[fresh (dom h0) := ∅]> h0).
  destruct (run_calls_nonneg self pre h1 ∅) as (m & Hrun & Hnn);
    [by apply Qclt_le_weak|done|apply lookup_insert_eq|apply map_Forall_empty|].
  exists self, (<[token_weights self := m]> h1), m.
  split; [|split].
  - unfold dict_new. fold h1. simpl. fold self. by rewrite Hrun.
  - apply lookup_insert_eq.
  - exact Hnn.
Qed.

Lemma weights_never_negative_witness :
  ∃ self h m,
    (self ← _TokenMemoryShim_init "Env" (Q2Qc 0.9);
     for_ [Update ["Windows"; "PowerShell"] (Q2Qc 0.7); DecayPass]
       (run_call self);; mret self) ∅ = Ok self h
    ∧ h !! token_weights self = Some m
    ∧ ∀ t w, m !! t = Some w → 0 ≤ w.
Proof.
  apply (weights_never_negative "Env" (Q2Qc 0.9)
           [Update ["Windows"; "PowerShell"] (Q2Qc 0.7); DecayPass;
            Update ["PowerShell"] (Q2Qc 0.6)] ∅)
    with (post := [Update ["PowerShell"] (Q2Qc 0.6)]).
  - split; by vm_compute.
  - repeat constructor.
  - reflexivity.
Defined.

(** ** Repeated decay *)

Section rationals.
Local Open Scope Q_scope.

Lemma Qpow_nonneg d n : 0 <= d → 0 <= Qpow d n.
Proof. intros Hd. induction n as [|n IH]; simpl; [lra|nra]. Qed.

(** Bernoulli's inequality, in the form that bounds a power of [d]. *)
Lemma Qpow_bernoulli d n :
  0 <= d <= 1 → Qpow d n * (1 + inject_Z (Z.of_nat n) * (1 - d)) <= 1.
Proof.
  intros Hd. induction n as [|n IH].
  - cbn [Qpow]. change (inject_Z (Z.of_nat 0)) with 0. lra.
  - rewrite Nat2Z.inj_succ. unfold Z.succ. rewrite inject_Z_plus. simpl Qpow.
    pose proof (Qpow_nonneg d n (proj1 Hd)) as HP.
    assert (Hn : 0 <= inject_Z (Z.of_nat n)).
    { change 0 with (inject_Z 0). rewrite <-Zle_Qle. lia. }
    set (P := Qpow d n) in *. set (a := inject_Z (Z.of_nat n)) in *.
    change (inject_Z 1) with 1.
    assert (Hsq : 0 <= (a + 1) * ((1 - d) * (1 - d))).
    { apply Qmult_le_0_compat; [lra|]. apply Qmult_le_0_compat; lra. }
    assert (H1 : d * (1 + (a + 1) * (1 - d)) <= 1 + a * (1 - d)) by lra.
    assert (H2 : P * (d * (1 + (a + 1) * (1 - d))) <= P * (1 + a * (1 - d))).
    { rewrite !(Qmult_comm P). by apply Qmult_le_compat_r. }
    lra.
Qed.

Lemma Q_archimedean (w d eps : Q) :
  0 < eps → 0 <= d < 1 → ∃ n : nat, w * Qpow d n < eps.
Proof.
  intros Heps [Hd0 Hd1].
  destruct (Qlt_le_dec 0 w) as [Hw|Hw].
  - set (x := w / ((1 - d) * eps)).
    exists (Z.to_nat (Qceiling x)).
    pose proof (Qle_ceiling x) as Hx.
    assert (Hxpos : 0 < x).
    { unfold x. apply Qlt_shift_div_l; nra. }
    assert (Hc : (0 <= Qceiling x)%Z).
    { rewrite Zle_Qle. change (inject_Z 0) with 0. lra. }
    rewrite <-(Z2Nat.id _ Hc) in Hx.
    set (n := Z.to_nat (Qceiling x)) in *.
    pose proof (Qpow_bernoulli d n (conj Hd0 (Qlt_le_weak _ _ Hd1))) as HB.
    pose proof (Qpow_nonneg d n Hd0) as HP.
    set (a := inject_Z (Z.of_nat n)) in *. set (P := Qpow d n) in *.
    assert (Hw' : w == x * ((1 - d) * eps)).
    { unfold x. field. split; lra. }
    assert (Hbig : w <= a * (1 - d) * eps) by nra.
    destruct (Qlt_le_dec (w * P) eps) as [|Hge]; [done|].
    exfalso.
    assert (eps * (1 + a * (1 - d)) <= w * (P * (1 + a * (1 - d)))) by nra.
    nra.
  - exists 0%nat. simpl. lra.
Qed.

End rationals.

Lemma Qcpower_this (d : Qc) (n : nat) : (this (d ^ n) == Qpow (this d) n)%Q.
Proof.
  induction n as [|n IH]; simpl; [reflexivity|].
  rewrite Qred_correct. by rewrite IH.
Qed.

Lemma Qc_archimedean (w d eps : Qc) :
  0 < eps → 0 ≤ d → d < 1 → ∃ n : nat, w * d ^ n < eps.
Proof.
  intros Heps Hd0 Hd1.
  destruct (Q_archimedean (this w) (this d) (this eps)) as [n Hn]; [done|done|].
  exists n. unfold Qclt. simpl. by rewrite Qred_correct, Qcpower_this.
Qed.

Lemma decay_power_antitone (w d : Qc) (n k : nat) :
  0 ≤ d → d ≤ 1 → 0 ≤ w → (n ≤ k)%nat → w * d ^ k ≤ w * d ^ n.
Proof.
  intros Hd0 Hd1 Hw. induction 1 as [|k Hle IH]; [done|].
  trans (w * d ^ k); [|done].
  assert (Hnn : 0 ≤ w * d ^ k)
    by (apply Qcmult_nonneg_nonneg; [done|by apply Qcpower_pos]).
  replace (w * d ^ S k) with (d * (w * d ^ k)) by (simpl; ring).
  rewrite <-(Qcmult_1_l (w * d ^ k)) at 2.
  by apply Qcmult_le_compat_r.
Qed.

Lemma times_decay_run (self : _TokenMemoryShim) (n : nat)
    (h : gmap positive (gmap string Qc)) (m : gmap string Qc) :
  h !! token_weights self = Some m →
  times n (decay_weights self) h =
    Ok () (<[token_weights self := decay_passes (decay self) n m]> h).
Proof.
  revert h m. induction n as [|n IH]; intros h m Hm; simpl.
  - run. by rewrite insert_id.
  - run. rewrite (decay_weights_run self h m Hm).
    rewrite (IH _ (decay_dict (decay self) m)) by apply lookup_insert_eq.
    by rewrite insert_insert_eq.
Qed.

Lemma decay_passes_absent d n (m : gmap string Qc) t :
  m !! t = None → decay_passes d n m !! t = None.
Proof.
  revert m. induction n as [|n IH]; intros m Ht; simpl; [done|].
  apply IH. by rewrite decay_dict_lookup, Ht.
Qed.

(** While no pass has brought the weight below 1e-6 the entry is there, and
    [k] passes have multiplied it by [d^k]. *)
Lemma decay_passes_alive d n (m : gmap string Qc) t w :
  m !! t = Some w →
  (∀ j, (1 ≤ j ≤ n)%nat → ¬ w * d ^ j < Q2Qc 1e-6) →
  decay_passes d n m !! t = Some (w * d ^ n).
Proof.
  revert m w. induction n as [|n IH]; intros m w Ht Halive; simpl.
  - by rewrite Qcmult_1_r.
  - rewrite (IH _ (w * d)).
    + f_equal. ring.
    + rewrite decay_dict_lookup, Ht. simpl. apply decay_entry_Some.
      split; [done|]. specialize (Halive 1%nat). simpl in Halive.
      rewrite Qcmult_1_r in Halive. apply Halive. lia.
    + intros j Hj. specialize (Halive (S j)). simpl in Halive.
      rewrite <-Qcmult_assoc. apply Halive. lia.
Qed.

(** Once a pass has brought the weight below 1e-6 the entry is gone, and it
    does not come back. *)
Lemma decay_passes_dead d n (m : gmap string Qc) t w :
  m !! t = Some w →
  (∃ j, (1 ≤ j ≤ n)%nat ∧ w * d ^ j < Q2Qc 1e-6) →
  decay_passes d n m !! t = None.
Proof.
  revert m w. induction n as [|n IH]; intros m w Ht (j & Hj & Hlt); simpl.
  - lia.
  - destruct (decide (w * d < Q2Qc 1e-6)) as [Hnow|Hlater].
    + apply decay_passes_absent. rewrite decay_dict_lookup, Ht. simpl.
      unfold decay_entry. by rewrite decide_True.
    + apply (IH _ (w * d)).
      * rewrite decay_dict_lookup, Ht. simpl. by apply decay_entry_Some.
      * destruct j as [|[|j]]; [lia| |].
        -- simpl in Hlt. by rewrite Qcmult_1_r in Hlt.
        -- exists (S j). split; [lia|].
           rewrite <-Qcmult_assoc. exact Hlt.
Qed.

(** The first pass that brings the weight below 1e-6, when some pass does. *)
Lemma first_crossing (w d : Qc) (N : nat) :
  (∀ j, (1 ≤ j ≤ N)%nat → ¬ w * d ^ j < Q2Qc 1e-6)
  ∨ (∃ n, (1 ≤ n ≤ N)%nat ∧ w * d ^ n < Q2Qc 1e-6
          ∧ ∀ j, (1 ≤ j < n)%nat → ¬ w * d ^ j < Q2Qc 1e-6).
Proof.
  induction N as [|N [IH|(n & Hn & Hlt & Hleast)]].
  - left. intros j Hj. lia.
  - destruct (decide (w * d ^ S N < Q2Qc 1e-6)) as [Hlt|Hge].
    + right. exists (S N). split; [lia|]. split; [done|].
      intros j Hj. apply IH. lia.
    + left. intros j Hj. destruct (decide (j = S N)) as [->|Hne]; [done|].
      apply IH. lia.
  - right. exists n. split; [lia|]. by split.
Qed.

Lemma decayed_power (d : Qc) (k : nat) (w : Qc) : decayed d k w = w * d ^ k.
Proof.
  unfold decayed. induction k as [|k IH].
  - simpl. by rewrite Qcmult_1_r.
  - rewrite Nat.iter_succ, IH. simpl. ring.
Qed.

(** What [n] passes leave for a token depends on what the store holds for
    that token only. *)
Lemma decay_passes_lookup_ext d n (m1 m2 : gmap string Qc) t :
  m1 !! t = m2 !! t → decay_passes d n m1 !! t = decay_passes d n m2 !! t.
Proof.
  revert m1 m2. induction n as [|n IH]; intros m1 m2 Heq; [done|].
  cbn [decay_passes]. apply IH. by rewrite !decay_dict_lookup, Heq.
Qed.

(** Calls that do not list [t] leave for [t] what their decay passes alone
    would have left. *)
Lemma run_calls_untouched (self : _TokenMemoryShim) (calls : list call) t
    (h : gmap positive (gmap string Qc)) (m : gmap string Qc) :
  Forall (leaves_alone t) calls →
  h !! token_weights self = Some m →
  ∃ m', for_ calls (run_call self) h = Ok () (<[token_weights self := m']> h)
        ∧ m' !! t = decay_passes (decay self) (passes calls) m !! t.
Proof.
  intros Hcalls. revert h m.
  induction Hcalls as [|c cs Hc Hcs IH]; intros h m Hm.
  - exists m. split; [|done]. simpl. run. by rewrite insert_id.
  - destruct c as [tokens i|]; cbn [leaves_alone] in Hc.
    + destruct (IH (<[token_weights self
                      := update_dict (decay self) i tokens m]> h)
                  (update_dict (decay self) i tokens m))
        as (m' & Hrun & Hlook); [apply lookup_insert_eq|].
      exists m'. split.
      * cbn [for_ run_call]. unfold mbind, M_bind.
        rewrite (update_weights_run self tokens i h m Hm), Hrun.
        by rewrite insert_insert_eq.
      * rewrite Hlook. cbn [passes]. apply decay_passes_lookup_ext.
        by rewrite update_dict_lookup, occurrences_0.
    + destruct (IH (<[token_weights self := decay_dict (decay self) m]> h)
                  (decay_dict (decay self) m))
        as (m' & Hrun & Hlook); [apply lookup_insert_eq|].
      exists m'. split; [|done].
      cbn [for_ run_call]. unfold mbind, M_bind.
      rewrite (decay_weights_run self h m Hm), Hrun.
      by rewrite insert_insert_eq.
Qed.

(** C7, amended: with a decay factor strictly between 0 and 1, take a token
    that weighs [w], a finite weight as every weight of the embedding is, and
    calls that never list it: updates of other tokens and decay passes, in
    any order.  Every pass multiplies the weight by the
    decay factor, a weight that is still at least 1e-6 gets strictly smaller,
    and there is an [n >= 1], the first number of multiplications that
    brings the weight below 1e-6, such that the token is in the store with
    the weight multiplied [k] times after calls with [k < n] passes, and is
    not in the store after calls with [n] passes or more. *)
Theorem untouched_token_eventually_removed (self : _TokenMemoryShim)
    (h : heap) (m : dict) (t : string) (w : Qc) :
  0 < decay self → decay self < 1 →
  h !! token_weights self = Some m → m !! t = Some w →
  ∃ n, (1 ≤ n)%nat
    ∧ decayed (decay self) n w < Q2Qc 1e-6
    ∧ (∀ k, (1 ≤ k < n)%nat → ¬ decayed (decay self) k w < Q2Qc 1e-6)
    ∧ (∀ k, ¬ decayed (decay self) k w < Q2Qc 1e-6 →
            decayed (decay self) (S k) w < decayed (decay self) k w)
    ∧ ∀ calls, Forall (leaves_alone t) calls →
        ∃ m',
          for_ calls (run_call self) h
            = Ok () (<[token_weights self := m']> h)
          ∧ ((passes calls < n)%nat →
             m' !! t = Some (decayed (decay self) (passes calls) w))
          ∧ ((n ≤ passes calls)%nat → m' !! t = None).
Proof.
  intros Hd0 Hd1 Hm Ht. set (d := decay self) in *.
  assert (Hd0' : 0 ≤ d) by by apply Qclt_le_weak.
  destruct (Qc_archimedean (w * d) d (Q2Qc 1e-6)) as [N HN];
    [done|done|done|].
  assert (HN' : w * d ^ S N < Q2Qc 1e-6)
    by (simpl; by rewrite Qcmult_assoc).
  destruct (first_crossing w d (S N)) as [Hnone|(n & Hn & Hlt & Hleast)].
  { exfalso. apply (Hnone (S N)); [lia|done]. }
  exists n. split; [lia|]. split; [by rewrite decayed_power|].
  split; [|split].
  - intros k Hk. rewrite decayed_power. by apply Hleast.
  - intros k Hge. unfold decayed. rewrite Nat.iter_succ.
    fold (decayed d k w). set (x := decayed d k w) in *.
    apply Qcnot_lt_le in Hge.
    assert (Hx : 0 < x) by (by apply Qclt_le_trans with (Q2Qc 1e-6)).
    rewrite <-(Qcmult_1_l x) at 2. rewrite (Qcmult_comm x).
    by apply Qcmult_lt_compat_r.
  - intros calls Hcalls.
    destruct (run_calls_untouched self calls t h m Hcalls Hm)
      as (m' & Hrun & Hlook).
    exists m'. split; [done|]. rewrite Hlook. fold d. split.
    + intros Hk. rewrite decayed_power.
      apply decay_passes_alive; [done|]. intros j Hj. apply Hleast. lia.
    + intros Hk. apply (decay_passes_dead d _ m t w); [done|].
      exists n. split; [lia|done].
Qed.

Lemma untouched_token_eventually_removed_witness :
  ∃ n, (1 ≤ n)%nat
    ∧ decayed (Q2Qc 0.9) n (Q2Qc 0.7) < Q2Qc 1e-6
    ∧ ∀ calls, Forall (leaves_alone "Windows") calls →
        ∃ m',
          for_ calls (run_call (shim_at_1 (Q2Qc 0.9))) (heap_of windows_only)
            = Ok () (<[1%positive := m']> (heap_of windows_only))
          ∧ ((n ≤ passes calls)%nat → m' !! "Windows" = None).
Proof.
  destruct (untouched_token_eventually_removed (shim_at_1 (Q2Qc 0.9))
              (heap_of windows_only) windows_only "Windows" (Q2Qc 0.7))
    as (n & Hn & Hlt & _ & _ & Hcalls);
    [reflexivity|reflexivity|reflexivity|reflexivity|].
  exists n. split; [exact Hn|]. split; [exact Hlt|].
  intros calls Hleave. destruct (Hcalls calls Hleave) as (m' & Hrun & _ & Hgone).
  exists m'. split; [exact Hrun|exact Hgone].
Defined.

(** Two passes with an update of another token in between: "Windows" has
    been multiplied twice, whatever happened to "PowerShell". *)
Example decay_around_other_updates :
  ∃ m',
    for_ [DecayPass; Update ["PowerShell"] (Q2Qc 0.6); DecayPass]
      (run_call (shim_at_1 (Q2Qc 0.9))) (heap_of windows_only)
    = Ok () (heap_of m')
    ∧ m' !! "Windows" = Some (Q2Qc 0.7 * Q2Qc 0.9 * Q2Qc 0.9)
    ∧ m' !! "PowerShell" = Some (Q2Qc 0.6 * Q2Qc 0.9).
Proof.
  eexists. split; [reflexivity|]. split; by_evaluation.
Qed.

Lemma decay_one_keeps_store (n : nat) :
  times n (decay_weights (shim_at_1 1)) (heap_of windows_only)
  = Ok () (heap_of windows_only).
Proof.
  rewrite (times_decay_run _ n _ windows_only) by reflexivity.
  apply (f_equal (Ok ())). unfold heap_of. rewrite insert_singleton_eq.
  apply (f_equal (λ m, {[ 1%positive := m ]})).
  induction n as [|n IH]; [done|]. cbn [decay_passes].
  replace (decay_dict (decay (shim_at_1 1)) windows_only) with windows_only
    by (symmetry; by_evaluation).
  exact IH.
Qed.

(** C7 as stated fails at [decay = 1], which [0 < decay <= 1] allows: the
    passes leave "Windows" at 0.7, and no number of them removes it. *)
Lemma decay_one_never_removes :
  0 < decay (shim_at_1 1) ≤ 1
  ∧ ¬ ∃ n m',
        times n (decay_weights (shim_at_1 1)) (heap_of windows_only)
        = Ok () (heap_of m')
        ∧ m' !! "Windows" = None.
Proof.
  split; [split; by vm_compute|].
  intros (n & m' & Hrun & Hgone). rewrite decay_one_keeps_store in Hrun.
  apply (f_equal (λ o, match o with
                       | Ok _ h' => h' !! 1%positive
                       | Raise _ => None
                       end)) in Hrun.
  unfold heap_of in Hrun. rewrite !lookup_singleton_eq in Hrun.
  apply (inj Some) in Hrun. subst m'. by vm_compute in Hgone.
Qed.

(** ** The threshold query *)

(** C3: [hypothesis key] is true exactly when the weight the store holds for
    [key], taken as 0 for an absent key, is at least the threshold; with a
    positive threshold an absent key gives false; the call raises nothing and
    leaves every dictionary of the store as it was (it only allocates its
    snapshot); with another threshold the resulting store is the same and
    only the boolean differs. *)
Theorem hypothesis_threshold_query (self : EnvironmentStateTracker)
    (key : string) (h : heap) (m : dict) :
  h !! token_weights (mem self) = Some m →
  ∃ b h',
    hypothesis self key h = Ok b h'
    ∧ (b = true ↔ threshold self ≤ default 0 (m !! key))
    ∧ (m !! key = None → 0 < threshold self → b = false)
    ∧ h ⊆ h'
    ∧ h' !! token_weights (mem self) = Some m
    ∧ ∀ θ, ∃ b',
        hypothesis {| mem := mem self; threshold := θ |} key h = Ok b' h'
        ∧ (b' = true ↔ θ ≤ default 0 (m !! key)).
Proof.
  intros Hm. eexists _, _. split; [by apply hypothesis_run|].
  split; [apply bool_decide_eq_true|]. split; [|split; [|split]].
  - intros Habs Hpos. apply bool_decide_eq_false. rewrite Habs. simpl.
    by apply Qclt_not_le.
  - apply alloc_extends.
  - by apply alloc_lookup.
  - intros θ. eexists. split; [by apply hypothesis_run|].
    apply bool_decide_eq_true.
Qed.

Lemma hypothesis_threshold_query_witness :
  heap_of windows_only !! token_weights (mem (tracker_at_1 (Q2Qc 0.9) (Q2Qc 0.6)))
    = Some windows_only
  ∧ ∃ b h',
      hypothesis (tracker_at_1 (Q2Qc 0.9) (Q2Qc 0.6)) "PowerShell"
        (heap_of windows_only) = Ok b h'
      ∧ b = false.
Proof.
  split; [reflexivity|].
  destruct (hypothesis_threshold_query (tracker_at_1 (Q2Qc 0.9) (Q2Qc 0.6))
              "PowerShell" (heap_of windows_only) windows_only)
    as (b & h' & Hrun & _ & Habs & _); [reflexivity|].
  exists b, h'. split; [exact Hrun|].
  apply Habs; [reflexivity|reflexivity].
Defined.

(** ** Snapshots *)

(** A caller's mutations of the dictionary at [r] change the contents at [r]
    and nothing else. *)
Lemma mutate_run (r : positive) (muts : list mutation)
    (h : gmap positive (gmap string Qc)) (m : gmap string Qc) :
  h !! r = Some m →
  ∃ m', for_ muts (mutate r) h = Ok () (<[r := m']> h).
Proof.
  revert h m. induction muts as [|mu muts IH]; intros h m Hr; simpl.
  - exists m. run. by rewrite insert_id.
  - assert (∃ m1, mutate r mu h = Ok () (<[r := m1]> h)) as [m1 Hmu].
    { destruct mu; simpl;
        unfold dict_setitem, dict_pop, dict_clear; rewrite Hr; eauto. }
    destruct (IH (<[r := m1]> h) m1) as [m2 Hrest]; [apply lookup_insert_eq|].
    exists m2. run. rewrite Hmu, Hrest. by rewrite insert_insert_eq.
Qed.

(** What an operation returns, and what it leaves in the store's own
    dictionary, depends on that dictionary alone. *)
Lemma run_op_local (self : EnvironmentStateTracker) (op : store_op)
    (h : gmap positive (gmap string Qc)) (m : gmap string Qc) :
  h !! token_weights (mem self) = Some m →
  ∃ o m', (∀ h', h' !! token_weights (mem self) = Some m →
             ∃ h'', run_op self op h' = Ok o h''
                    ∧ h'' !! token_weights (mem self) = Some m').
Proof.
  intros _. destruct op as [tokens i| | |key]; simpl.
  - exists Done, (update_dict (decay (mem self)) i tokens m). intros h' Hm.
    eexists. unfold observe. run.
    rewrite (update_weights_run _ _ _ h' m Hm).
    split; [done|apply lookup_insert_eq].
  - exists Done, (decay_dict (decay (mem self)) m). intros h' Hm.
    eexists. run. rewrite (decay_weights_run _ h' m Hm).
    split; [done|apply lookup_insert_eq].
  - exists (Weights m), m. intros h' Hm.
    eexists. run. rewrite (get_weights_run _ h' m Hm).
    unfold dict_items. rewrite lookup_insert_eq.
    split; [done|by apply alloc_lookup].
  - exists (Belief (holds self m key)), m. intros h' Hm.
    eexists. run. rewrite (hypothesis_run _ _ h' m Hm).
    split; [done|by apply alloc_lookup].
Qed.

Lemma run_ops_local (self : EnvironmentStateTracker) (ops : list store_op)
    (m : gmap string Qc) :
  ∃ os m', ∀ h : gmap positive (gmap string Qc),
    h !! token_weights (mem self) = Some m →
    ∃ h', run_ops self ops h = Ok os h'
          ∧ h' !! token_weights (mem self) = Some m'.
Proof.
  revert m. induction ops as [|op ops IH]; intros m.
  - exists [], m. intros h Hm. exists h. by split.
  - destruct (run_op_local self op (<[token_weights (mem self) := m]> ∅) m)
      as (o & m1 & Hop); [apply lookup_insert_eq|].
    destruct (IH m1) as (os & m2 & Hrest).
    exists (o :: os), m2. intros h Hm.
    destruct (Hop h Hm) as (h1 & Hrun1 & Hm1).
    destruct (Hrest h1 Hm1) as (h2 & Hrun2 & Hm2).
    exists h2. split; [|done]. simpl. run. by rewrite Hrun1, Hrun2.
Qed.

(** C8: [get_weights] returns a new dictionary with the contents of the
    store's own; whatever the caller then does to the returned dictionary,
    the store's own keeps its contents, and every later sequence of
    operations on the tracker returns what it would have returned, and leaves
    in the store what it would have left, had no snapshot been taken. *)
Theorem snapshot_is_a_copy (self : EnvironmentStateTracker) (h : heap)
    (m : dict) (muts : list mutation) (ops : list store_op) :
  h !! token_weights (mem self) = Some m →
  ∃ r h1 h2,
    get_weights (mem self) h = Ok r h1
    ∧ r ≠ token_weights (mem self)
    ∧ h !! r = None
    ∧ h1 !! r = Some m
    ∧ for_ muts (mutate r) h1 = Ok () h2
    ∧ h2 !! token_weights (mem self) = Some m
    ∧ (∀ l, l ≠ r → h2 !! l = h !! l)
    ∧ ∃ os m' h' h2',
        run_ops self ops h = Ok os h'
        ∧ run_ops self ops h2 = Ok os h2'
        ∧ h' !! token_weights (mem self) = Some m'
        ∧ h2' !! token_weights (mem self) = Some m'.
Proof.
  intros Hm. set (r := fresh (dom h)). set (h1 := <[r := m]> h).
  assert (Hr : r ≠ token_weights (mem self)).
  { intros Heq. by apply (fresh_not_allocated h _ m Hm). }
  destruct (mutate_run r muts h1 m) as [mr Hmuts]; [apply lookup_insert_eq|].
  exists r, h1, (<[r := mr]> h1).
  split; [by apply get_weights_run|]. split; [done|].
  split; [apply not_elem_of_dom, is_fresh|].
  split; [apply lookup_insert_eq|]. split; [done|].
  assert (Hm2 : <[r := mr]> h1 !! token_weights (mem self) = Some m).
  { unfold h1. by rewrite !lookup_insert_ne. }
  split; [done|]. split.
  { intros l Hl. unfold h1. by rewrite !lookup_insert_ne. }
  destruct (run_ops_local self ops m) as (os & m' & Hops).
  destruct (Hops h Hm) as (h' & Hrun & Hm').
  destruct (Hops _ Hm2) as (h2' & Hrun2 & Hm2').
  by exists os, m', h', h2'.
Qed.

Lemma snapshot_is_a_copy_witness :
  ∃ r h1 h2,
    get_weights (shim_at_1 (Q2Qc 0.9)) (heap_of all_tools) = Ok r h1
    ∧ r ≠ 1%positive
    ∧ for_ [Clear; SetItem "Windows" 0] (mutate r) h1 = Ok () h2
    ∧ h2 !! 1%positive = Some all_tools.
Proof.
  destruct (snapshot_is_a_copy (tracker_at_1 (Q2Qc 0.9) (Q2Qc 0.6))
              (heap_of all_tools) all_tools [Clear; SetItem "Windows" 0]
              [OpHypothesis "Windows"])
    as (r & h1 & h2 & Hget & Hr & _ & _ & Hmut & Hkeep & _); [reflexivity|].
  exists r, h1, h2. split; [exact Hget|]. split; [exact Hr|].
  split; [exact Hmut|exact Hkeep].
Defined.

(** The same mutations through the store's own reference do reach the
    store: the model tells a copy from an alias. *)
Example mutation_through_alias :
  for_ [Clear; SetItem "Windows" 0]
    (mutate (token_weights (shim_at_1 (Q2Qc 0.9)))) (heap_of all_tools)
  = Ok () (heap_of {[ "Windows" := 0 ]}).
Proof. apply (f_equal (Ok ())). by_evaluation. Qed.

(** ** The policy *)

Lemma substring_prefix (n : nat) (s : string) :
  (n ≤ String.length s)%nat →
  ∃ ext, s = substring 0 n s +:+ ext
         ∧ String.length ext = (String.length s - n)%nat.
Proof.
  revert s. induction n as [|n IH]; intros s Hn.
  - exists s. destruct s; simpl; split; auto with lia.
  - destruct s as [|c s]; simpl in *; [lia|].
    destruct (IH s) as (ext & Heq & Hlen); [lia|].
    exists ext. split; [|done].
    change (String c s = String c (substring 0 n s +:+ ext)). by f_equal.
Qed.

(** [s[:-3]] is [s] without its last three characters, and empty when [s] has
    at most three. *)
Lemma slice_to_drop3 (s : string) :
  ∃ ext, s = slice_to s (-3) +:+ ext
         ∧ String.length ext = (String.length s `min` 3)%nat.
Proof.
  unfold slice_to. change (-3 <? 0)%Z with true. cbv iota.
  destruct (substring_prefix
              (Z.to_nat (Z.max 0 (-3 + Z.of_nat (String.length s)))) s)
    as (ext & Heq & Hlen); [lia|].
  exists ext. split; [done|lia].
Qed.

(** C1: the policy returns one of three fixed records, chosen by the three
    hypotheses in priority order: the direct conversion command, built from
    the path and the engine, when "Windows", "PowerShell" and
    "PandocInstalled" all hold; the literal install command when the first
    two hold and the third does not; the literal clarifying question in every
    other case.  The three records are pairwise different, and the call
    changes no dictionary of the store. *)
Theorem policy_decision_table (self : RelationalController)
    (path engine : string) (h h1 h2 h3 : heap) (bw bp bd : bool) :
  hypothesis (env self) "Windows" h = Ok bw h1 →
  hypothesis (env self) "PowerShell" h = Ok bp h2 →
  hypothesis (env self) "PandocInstalled" h = Ok bd h3 →
  (∃ h', h ⊆ h' ∧
     policy_for_pdf_request self path engine h =
       Ok match bw, bp, bd with
          | true, true, true =>
              {| assumption := "Windows + PowerShell + Pandoc present";
                 action := "Provide direct conversion command";
                 command :=
                   "pandoc " +:+ dquote +:+ path +:+ dquote +:+ " -o "
                     +:+ dquote +:+ slice_to path (-3) +:+ ".pdf" +:+ dquote
                     +:+ " --pdf-engine=" +:+ engine |}
          | true, true, false =>
              {| assumption := "Windows + PowerShell; Pandoc uncertain";
                 action := "Offer install path then conversion command";
                 command := "winget install Pandoc.Pandoc" |}
          | _, _, _ =>
              {| assumption := "Environment uncertain";
                 action :=
                   "Ask one clarifying question to establish environment";
                 command :=
                   "Do you have Pandoc installed and can you run PowerShell on Windows?" |}
          end h')
  ∧ direct_decision path engine ≠ install_decision
  ∧ direct_decision path engine ≠ clarify_decision
  ∧ install_decision ≠ clarify_decision.
Proof.
  intros Hw Hp Hd. split; [|by repeat split].
  destruct (h !! token_weights (mem (env self))) as [m|] eqn:Hm.
  - rewrite (hypothesis_run _ _ h m) in Hw by done.
    rewrite (hypothesis_run _ _ h m) in Hp by done.
    rewrite (hypothesis_run _ _ h m) in Hd by done.
    injection Hw as Hw _. injection Hp as Hp _. injection Hd as Hd _.
    destruct (policy_run self path engine h m Hm) as (h' & Hsub & Hrun).
    exists h'. split; [done|]. rewrite Hrun, Hw, Hp, Hd.
    by destruct bw, bp, bd.
  - unfold hypothesis, get_weights, dict_copy in Hw. revert Hw. run.
    by rewrite Hm.
Qed.

Lemma policy_decision_table_witness :
  ∃ h', policy_for_pdf_request {| env := tracker_at_1 (Q2Qc 0.9) (Q2Qc 0.6) |}
          "notes.md" default_engine (heap_of windows_pwsh)
        = Ok install_decision h'.
Proof.
  destruct (policy_decision_table
              {| env := tracker_at_1 (Q2Qc 0.9) (Q2Qc 0.6) |}
              "notes.md" default_engine (heap_of windows_pwsh)
              (<[2%positive := windows_pwsh]> (heap_of windows_pwsh))
              (<[2%positive := windows_pwsh]> (heap_of windows_pwsh))
              (<[2%positive := windows_pwsh]> (heap_of windows_pwsh))
              true true false)
    as [(h' & _ & Hrun) _]; [reflexivity|reflexivity|reflexivity|].
  exists h'. exact Hrun.
Defined.

(** The all-false store of the specification: nothing observed. *)
Example policy_nothing_observed :
  ∃ h', policy_for_pdf_request {| env := tracker_at_1 (Q2Qc 0.9) (Q2Qc 0.6) |}
          "notes.md" default_engine (heap_of ∅)
        = Ok clarify_decision h'.
Proof. eexists. reflexivity. Qed.

(** C9: the policy raises for no path, the empty one and those of fewer than
    three characters included; when the three hypotheses hold the command is
    the template filled with the path, then the path without its last
    [min 3 (length path)] characters followed by ".pdf", then the engine,
    with no test of what the removed characters were. *)
Theorem policy_total_in_path (self : RelationalController)
    (path engine : string) (h : heap) (m : dict) :
  h !! token_weights (mem (env self)) = Some m →
  (∃ dec h', policy_for_pdf_request self path engine h = Ok dec h')
  ∧ (threshold (env self) ≤ default 0 (m !! "Windows") →
     threshold (env self) ≤ default 0 (m !! "PowerShell") →
     threshold (env self) ≤ default 0 (m !! "PandocInstalled") →
     ∃ stem ext h',
       path = stem +:+ ext
       ∧ String.length ext = (String.length path `min` 3)%nat
       ∧ policy_for_pdf_request self path engine h =
           Ok {| assumption := "Windows + PowerShell + Pandoc present";
                 action := "Provide direct conversion command";
                 command :=
                   "pandoc " +:+ dquote +:+ path +:+ dquote +:+ " -o "
                     +:+ dquote +:+ stem +:+ ".pdf" +:+ dquote
                     +:+ " --pdf-engine=" +:+ engine |} h').
Proof.
  intros Hm. destruct (policy_run self path engine h m Hm) as (h' & _ & Hrun).
  split; [eauto|]. intros Hw Hp Hd.
  destruct (slice_to_drop3 path) as (ext & Heq & Hlen).
  exists (slice_to path (-3)), ext, h'. split; [done|]. split; [done|].
  rewrite Hrun. unfold holds. by rewrite !bool_decide_eq_true_2.
Qed.

Lemma policy_total_in_path_witness :
  ∃ stem ext h',
    "README" = stem +:+ ext
    ∧ String.length ext = 3%nat
    ∧ policy_for_pdf_request {| env := tracker_at_1 (Q2Qc 0.9) (Q2Qc 0.6) |}
        "README" "xelatex" (heap_of all_tools)
      = Ok {| assumption := "Windows + PowerShell + Pandoc present";
              action := "Provide direct conversion command";
              command :=
                "pandoc " +:+ dquote +:+ "README" +:+ dquote +:+ " -o "
                  +:+ dquote +:+ stem +:+ ".pdf" +:+ dquote
                  +:+ " --pdf-engine=" +:+ "xelatex" |} h'.
Proof.
  destruct (policy_total_in_path
              {| env := tracker_at_1 (Q2Qc 0.9) (Q2Qc 0.6) |}
              "README" "xelatex" (heap_of all_tools) all_tools)
    as [_ Hcmd]; [reflexivity|].
  apply Hcmd; by vm_compute.
Defined.

(** Paths that do not end in a three-character extension: the policy still
    answers, and the last three characters are gone. *)
Example policy_path_without_extension :
  ∃ h', policy_for_pdf_request {| env := tracker_at_1 (Q2Qc 0.9) (Q2Qc 0.6) |}
          "README" "xelatex" (heap_of all_tools)
        = Ok {| assumption := "Windows + PowerShell + Pandoc present";
                action := "Provide direct conversion command";
                command :=
                  "pandoc " +:+ dquote +:+ "README" +:+ dquote +:+ " -o "
                    +:+ dquote +:+ "REA.pdf" +:+ dquote
                    +:+ " --pdf-engine=xelatex" |} h'.
Proof. eexists. reflexivity. Qed.

Example policy_short_path :
  ∃ h', policy_for_pdf_request {| env := tracker_at_1 (Q2Qc 0.9) (Q2Qc 0.6) |}
          "ab" "xelatex" (heap_of all_tools)
        = Ok {| assumption := "Windows + PowerShell + Pandoc present";
                action := "Provide direct conversion command";
                command :=
                  "pandoc " +:+ dquote +:+ "ab" +:+ dquote +:+ " -o "
                    +:+ dquote +:+ ".pdf" +:+ dquote
                    +:+ " --pdf-engine=xelatex" |} h'.
Proof. eexists. reflexivity. Qed.

Example policy_empty_path :
  ∃ h', policy_for_pdf_request {| env := tracker_at_1 (Q2Qc 0.9) (Q2Qc 0.6) |}
          EmptyString "xelatex" (heap_of all_tools)
        = Ok {| assumption := "Windows + PowerShell + Pandoc present";
                action := "Provide direct conversion command";
                command :=
                  "pandoc " +:+ dquote +:+ dquote +:+ " -o "
                    +:+ dquote +:+ ".pdf" +:+ dquote
                    +:+ " --pdf-engine=xelatex" |} h'.
Proof. eexists. reflexivity. Qed.

(** ** The demo *)

Lemma demo_observations_run (h0 : gmap positive (gmap string Qc)) :
  ∃ trk h,
    demo_observations h0 = Ok trk h
    ∧ decay (mem trk) = Q2Qc 0.9 ∧ threshold trk = Q2Qc 0.6
    ∧ h !! token_weights (mem trk) = Some demo_weights
    ∧ h = <[token_weights (mem trk) := demo_weights]> h0
    ∧ h0 !! token_weights (mem trk) = None.
Proof.
  set (self := {| name := "Env"; decay := Q2Qc 0.9;
                  token_weights := fresh (dom h0) |}).
  set (trk := {| mem := self; threshold := Q2Qc 0.6 |}).
  exists trk, (<[token_weights self := demo_weights]> h0).
  split; [|split; [done|split; [done|split; [apply lookup_insert_eq|]]]].
  - unfold demo_observations, EnvironmentStateTracker_init, observe.
    run. unfold dict_new. fold self. fold trk. cbn [mem].
    rewrite (update_weights_run self _ _ _ ∅) by apply lookup_insert_eq.
    rewrite (update_weights_run self _ _ _ _ (lookup_insert_eq _ _ _)).
    rewrite (update_weights_run self _ _ _ _ (lookup_insert_eq _ _ _)).
    rewrite !insert_insert_eq. cbn [decay self].
    apply (f_equal (Ok trk)), (f_equal (λ m, <[fresh (dom h0) := m]> h0)).
    by_evaluation.
  - split; [done|]. apply not_elem_of_dom, is_fresh.
Qed.

(** C5: with decay 0.9 and threshold 0.6, after the three observations of
    the demo "PowerShell" weighs [0.7 * 0.9 + 0.6 = 1.23], "Windows" 0.7 and
    "PandocInstalled" 0.8, the three hypotheses are true, and the policy,
    hence the demo, returns the direct conversion command. *)
Theorem demo_selects_direct_conversion (h0 : heap) :
  ∃ trk h m,
    demo_observations h0 = Ok trk h
    ∧ h !! token_weights (mem trk) = Some m
    ∧ m !! "PowerShell" = Some (Q2Qc 0.7 * Q2Qc 0.9 + Q2Qc 0.6)
    ∧ Q2Qc 0.7 * Q2Qc 0.9 + Q2Qc 0.6 = Q2Qc 1.23
    ∧ m !! "Windows" = Some (Q2Qc 0.7)
    ∧ m !! "PandocInstalled" = Some (Q2Qc 0.8)
    ∧ (∃ h', hypothesis trk "Windows" h = Ok true h')
    ∧ (∃ h', hypothesis trk "PowerShell" h = Ok true h')
    ∧ (∃ h', hypothesis trk "PandocInstalled" h = Ok true h')
    ∧ (∃ h', policy_for_pdf_request {| env := trk |} demo_path default_engine h
             = Ok (direct_decision demo_path default_engine) h')
    ∧ (∃ h', demo_environment_awareness h0
             = Ok (m, direct_decision demo_path default_engine) h')
    ∧ action (direct_decision demo_path default_engine)
      = "Provide direct conversion command".
Proof.
  destruct (demo_observations_run h0)
    as (trk & h & Hrun & Hdecay & Hthr & Hm & Hh & Hfresh).
  assert (Hholds : ∀ key, key ∈ ["Windows"; "PowerShell"; "PandocInstalled"] →
                          holds trk demo_weights key = true).
  { intros key Hkey. unfold holds. rewrite Hthr.
    repeat (apply elem_of_cons in Hkey as [->|Hkey]; [by_evaluation|]).
    by apply elem_of_nil in Hkey. }
  assert (Hpolicy : ∃ h', policy_for_pdf_request {| env := trk |} demo_path
                            default_engine h
                          = Ok (direct_decision demo_path default_engine) h').
  { destruct (policy_run {| env := trk |} demo_path default_engine h
                demo_weights Hm) as (h' & _ & Hp).
    exists h'. rewrite Hp. cbn [env].
    by rewrite !Hholds by in_list. }
  exists trk, h, demo_weights.
  split; [done|]. split; [done|].
  split; [by_evaluation|]. split; [by_evaluation|].
  split; [by_evaluation|]. split; [by_evaluation|].
  split; [|split; [|split; [|split; [done|split; [|done]]]]].
  - eexists. rewrite (hypothesis_run trk _ h demo_weights Hm).
    by rewrite Hholds by in_list.
  - eexists. rewrite (hypothesis_run trk _ h demo_weights Hm).
    by rewrite Hholds by in_list.
  - eexists. rewrite (hypothesis_run trk _ h demo_weights Hm).
    by rewrite Hholds by in_list.
  - destruct Hpolicy as (h' & Hp).
    destruct (policy_run {| env := trk |} demo_path default_engine h
                demo_weights Hm) as (h'' & Hsub & Hp').
    rewrite Hp in Hp'. injection Hp' as _ <-.
    revert Hrun. unfold demo_environment_awareness, demo_observations.
    unfold loads_to_json. unfold mbind, M_bind, mret, M_ret.
    destruct (EnvironmentStateTracker_init (Q2Qc 0.9) (Q2Qc 0.6) h0)
      as [env0 h1|]; [|done].
    destruct (observe env0 ["Windows"; "PowerShell"] (Q2Qc 0.7) h1)
      as [[] h2|]; [|done].
    destruct (observe env0 ["PandocInstalled"; "PDFExportSuccess"]
                (Q2Qc 0.8) h2) as [[] h3|]; [|done].
    destruct (observe env0 ["PowerShell"] (Q2Qc 0.6) h3) as [[] h4|]; [|done].
    intros [= -> ->]. rewrite Hp.
    rewrite (get_weights_run (mem trk) h' demo_weights)
      by (by eapply lookup_weaken).
    unfold dict_items. rewrite lookup_insert_eq. eauto.
Qed.

(** * Further properties of the code *)

(** ** [update_weights]: keys, batches and order *)

Lemma for_app {A} (xs ys : list A) (body : A → M unit)
    (h : gmap positive (gmap string Qc)) :
  for_ (xs ++ ys) body h = (for_ xs body;; for_ ys body) h.
Proof.
  revert h. induction xs as [|x xs IH]; intros h; [done|].
  cbn [app for_]. unfold mbind, M_bind in *.
  destruct (body x h) as [[] h'|e]; [apply IH|done].
Qed.

Lemma update_dict_dom d i tokens (m : gmap string Qc) :
  dom (update_dict d i tokens m) = dom m ∪ list_to_set tokens.
Proof.
  unfold update_dict. revert m.
  induction tokens as [|t ts IH]; intros m; cbn [foldl list_to_set].
  - by rewrite (right_id_L ∅ (∪)).
  - rewrite IH. unfold update_step. rewrite dom_insert_L.
    by rewrite (comm_L (∪) {[t]}), (assoc_L (∪)).
Qed.

Lemma occurrences_Permutation t (ts ts' : list string) :
  ts ≡ₚ ts' → occurrences t ts = occurrences t ts'.
Proof. intros Hperm. unfold occurrences. by rewrite Hperm. Qed.

Lemma update_dict_Permutation d i (ts ts' : list string)
    (m : gmap string Qc) :
  ts ≡ₚ ts' → update_dict d i ts m = update_dict d i ts' m.
Proof.
  intros Hperm. apply map_eq; intros t.
  by rewrite !update_dict_lookup, (occurrences_Permutation t ts ts').
Qed.

Lemma update_weights_dangling (self : _TokenMemoryShim) t ts i
    (h : gmap positive (gmap string Qc)) :
  h !! token_weights self = None →
  update_weights self (t :: ts) i h = Raise (DanglingRef (token_weights self)).
Proof.
  intros Hl. unfold update_weights. cbn [for_]. unfold mbind, M_bind.
  unfold dict_get at 1. by rewrite Hl.
Qed.

(** X1: [update_weights] raises nothing, deletes nothing and touches no other
    dictionary: afterwards the keys are the old keys together with the listed
    tokens, and with an empty token list the store is what it was. *)
Theorem update_weights_keys (self : _TokenMemoryShim) (tokens : list string)
    (i : Qc) (h : heap) (m : dict) :
  h !! token_weights self = Some m →
  ∃ m',
    update_weights self tokens i h = Ok () (<[token_weights self := m']> h)
    ∧ dom m' = dom m ∪ list_to_set tokens
    ∧ (tokens = [] → <[token_weights self := m']> h = h).
Proof.
  intros Hm. exists (update_dict (decay self) i tokens m).
  split; [by apply update_weights_run|]. split; [apply update_dict_dom|].
  intros ->. by apply insert_id.
Qed.

Lemma update_weights_keys_witness :
  ∃ m',
    update_weights (shim_at_1 (Q2Qc 0.9)) ["PowerShell"; "Windows"] (Q2Qc 0.6)
      (heap_of windows_only)
    = Ok () (<[1%positive := m']> (heap_of windows_only))
    ∧ dom m' = dom windows_only ∪ list_to_set ["PowerShell"; "Windows"].
Proof.
  destruct (update_weights_keys (shim_at_1 (Q2Qc 0.9))
              ["PowerShell"; "Windows"] (Q2Qc 0.6) (heap_of windows_only)
              windows_only) as (m' & Hrun & Hdom & _); [reflexivity|].
  exists m'. split; [exact Hrun|exact Hdom].
Defined.

(** X2: one call with the token list [ts1 ++ ts2] does what a call with
    [ts1] followed by a call with [ts2] at the same intensity does, on every
    store, a raised exception included. *)
Theorem update_weights_app (self : _TokenMemoryShim) (ts1 ts2 : list string)
    (i : Qc) (h : heap) :
  update_weights self (ts1 ++ ts2) i h
  = (update_weights self ts1 i;; update_weights self ts2 i) h.
Proof. unfold update_weights. apply for_app. Qed.

(** X3: within one call the order of the token list does not matter: two
    lists that are permutations of each other give the same outcome. *)
Theorem update_weights_Permutation (self : _TokenMemoryShim)
    (ts ts' : list string) (i : Qc) (h : heap) :
  ts ≡ₚ ts' → update_weights self ts i h = update_weights self ts' i h.
Proof.
  intros Hperm. destruct (h !! token_weights self) as [m|] eqn:Hm.
  - rewrite !(update_weights_run self _ i h m Hm).
    by rewrite (update_dict_Permutation _ _ ts ts').
  - destruct ts as [|t ts], ts' as [|t' ts'].
    + done.
    + by apply Permutation_nil_cons in Hperm.
    + symmetry in Hperm. by apply Permutation_nil_cons in Hperm.
    + by rewrite !update_weights_dangling.
Qed.

Lemma update_weights_Permutation_witness :
  update_weights (shim_at_1 (Q2Qc 0.9)) ["Windows"; "PowerShell"; "Windows"]
    (Q2Qc 0.6) (heap_of windows_only)
  = update_weights (shim_at_1 (Q2Qc 0.9)) ["PowerShell"; "Windows"; "Windows"]
      (Q2Qc 0.6) (heap_of windows_only).
Proof.
  apply (update_weights_Permutation (shim_at_1 (Q2Qc 0.9))).
  apply perm_swap.
Defined.

Lemma times_update_run (self : _TokenMemoryShim) (k : nat) t i
    (h : gmap positive (gmap string Qc)) (m : gmap string Qc) :
  h !! token_weights self = Some m →
  times k (update_weights self [t] i) h
  = Ok () (<[token_weights self
             := update_dict (decay self) i (replicate k t) m]> h).
Proof.
  revert h m. induction k as [|k IH]; intros h m Hm; cbn [times replicate].
  - run. by rewrite insert_id.
  - unfold mbind, M_bind. rewrite (update_weights_run self [t] i h m Hm).
    rewrite (IH _ (update_dict (decay self) i [t] m))
      by apply lookup_insert_eq.
    by rewrite insert_insert_eq.
Qed.

Lemma occurrences_replicate t k : occurrences t (replicate k t) = k.
Proof.
  induction k as [|k IH]; [done|]. cbn [replicate].
  by rewrite occurrences_cons, decide_True, IH.
Qed.

(** X5: [k >= 1] calls in a row for one token do what one call that lists
    the token [k] times does, and leave what [k] steps [w ↦ w * decay + i],
    one after the other, make of the previous weight. *)
Theorem repeated_update_is_one_call (self : _TokenMemoryShim) (k : nat)
    (t : string) (i : Qc) (h : heap) (m : dict) :
  h !! token_weights self = Some m →
  ∃ m',
    times (S k) (update_weights self [t] i) h
      = Ok () (<[token_weights self := m']> h)
    ∧ update_weights self (replicate (S k) t) i h
      = Ok () (<[token_weights self := m']> h)
    ∧ m' !! t = Some (steps (decay self) i (S k) (default 0 (m !! t))).
Proof.
  intros Hm.
  exists (update_dict (decay self) i (replicate (S k) t) m).
  split; [by apply times_update_run|].
  split; [by apply update_weights_run|].
  by rewrite update_dict_lookup_steps, occurrences_replicate.
Qed.

Lemma repeated_update_is_one_call_witness :
  ∃ m',
    times 3 (update_weights (shim_at_1 (Q2Qc 0.5)) ["Windows"] 1)
      (heap_of windows_only)
    = Ok () (<[1%positive := m']> (heap_of windows_only))
    ∧ update_weights (shim_at_1 (Q2Qc 0.5))
        ["Windows"; "Windows"; "Windows"] 1 (heap_of windows_only)
      = Ok () (<[1%positive := m']> (heap_of windows_only))
    ∧ m' !! "Windows"
      = Some (((Q2Qc 0.7 * Q2Qc 0.5 + 1) * Q2Qc 0.5 + 1) * Q2Qc 0.5 + 1).
Proof.
  destruct (repeated_update_is_one_call (shim_at_1 (Q2Qc 0.5)) 2 "Windows" 1
              (heap_of windows_only) windows_only)
    as (m' & Hrun & Hone & Hlook); [reflexivity|].
  exists m'. split; [exact Hrun|]. split; [exact Hone|exact Hlook].
Defined.

(** ** Weights stay away from zero *)

Lemma update_dict_above d imin i tokens (m : gmap string Qc) :
  0 ≤ d → 0 < imin → imin ≤ i →
  above imin m → above imin (update_dict d i tokens m).
Proof.
  intros Hd Himin Hi. unfold update_dict. revert m.
  induction tokens as [|x ts IH]; intros m Hm; [done|].
  cbn [foldl]. apply IH. intros k w. rewrite update_step_lookup.
  case_decide; [|apply Hm]. intros [= <-]. left.
  assert (Hprev : 0 ≤ default 0 (m !! x)).
  { destruct (m !! x) as [w|] eqn:Hx; simpl; [|done].
    apply Qclt_le_weak.
    destruct (Hm x w Hx) as [Hw|Hw];
      [by apply Qclt_le_trans with imin
      |by apply Qclt_le_trans with (Q2Qc 1e-6)]. }
  trans i; [done|]. rewrite <-(Qcplus_0_l i) at 1.
  apply Qcplus_le_compat; [|done]. by apply Qcmult_nonneg_nonneg.
Qed.

Lemma decay_dict_above d imin (m : gmap string Qc) :
  above imin (decay_dict d m).
Proof.
  intros t w'. rewrite decay_dict_lookup.
  destruct (m !! t) as [w|]; simpl; [|done].
  intros [-> Hge]%decay_entry_Some. right. by apply Qcnot_lt_le.
Qed.

Lemma run_calls_above (self : _TokenMemoryShim) imin (calls : list call)
    (h : gmap positive (gmap string Qc)) (m : gmap string Qc) :
  0 ≤ decay self → 0 < imin →
  Forall (intensity_at_least imin) calls →
  h !! token_weights self = Some m → above imin m →
  ∃ m', for_ calls (run_call self) h = Ok () (<[token_weights self := m']> h)
        ∧ above imin m'.
Proof.
  intros Hd Himin Hcalls. revert h m.
  induction Hcalls as [|c cs Hc Hcs IH]; intros h m Hm Hin.
  - exists m. split; [|done]. simpl. run. by rewrite insert_id.
  - assert (∃ m1, run_call self c h = Ok () (<[token_weights self := m1]> h)
                  ∧ above imin m1) as (m1 & Hrun1 & Hin1).
    { destruct c as [tokens i|]; simpl in *.
      - exists (update_dict (decay self) i tokens m).
        split; [by apply update_weights_run|].
        by apply update_dict_above.
      - exists (decay_dict (decay self) m).
        split; [by apply decay_weights_run|]. apply decay_dict_above. }
    destruct (IH (<[token_weights self := m1]> h) m1) as (m2 & Hrun2 & Hin2);
      [apply lookup_insert_eq|done|].
    exists m2. split; [|done].
    simpl. run. rewrite Hrun1, Hrun2. by rewrite insert_insert_eq.
Qed.

(** X6: on a store created with a decay factor in (0, 1], after any sequence
    of [update_weights] calls with intensities of at least [imin > 0] and of
    [decay_weights] calls, every stored weight is at least [imin] or at
    least 1e-6, and so positive. *)
Theorem weights_stay_above (name : string) (d imin : Qc)
    (calls : list call) (h0 : heap) :
  0 < d ≤ 1 → 0 < imin → Forall (intensity_at_least imin) calls →
  ∃ self h m,
    (self ← _TokenMemoryShim_init name d;
     for_ calls (run_call self);; mret self) h0 = Ok self h
    ∧ h !! token_weights self = Some m
    ∧ ∀ t w, m !! t = Some w → (imin ≤ w ∨ Q2Qc 1e-6 ≤ w) ∧ 0 < w.
Proof.
  intros [Hd _] Himin Hcalls. run.
  set (self := {| name := name; decay := d;
                  token_weights := fresh (dom h0) |}).
  set (h1 := <[fresh (dom h0) := ∅]> h0).
  destruct (run_calls_above self imin calls h1 ∅) as (m & Hrun & Hin);
    [by apply Qclt_le_weak|done|done|apply lookup_insert_eq
    |apply map_Forall_empty|].
  exists self, (<[token_weights self := m]> h1), m.
  split; [|split].
  - unfold dict_new. fold h1. simpl. fold self. by rewrite Hrun.
  - apply lookup_insert_eq.
  - intros t w Ht. split; [by apply (Hin t)|].
    destruct (Hin t w Ht) as [Hw|Hw];
      [by apply Qclt_le_trans with imin
      |by apply Qclt_le_trans with (Q2Qc 1e-6)].
Qed.

Lemma weights_stay_above_witness :
  ∃ self h m,
    (self ← _TokenMemoryShim_init "Env" (Q2Qc 0.9);
     for_ [Update ["Windows"; "PowerShell"] (Q2Qc 0.7); DecayPass;
           Update ["PowerShell"] (Q2Qc 0.6)]
       (run_call self);; mret self) ∅ = Ok self h
    ∧ h !! token_weights self = Some m
    ∧ ∀ t w, m !! t = Some w →
        (Q2Qc 0.6 ≤ w ∨ Q2Qc 1e-6 ≤ w) ∧ 0 < w.
Proof.
  apply (weights_stay_above "Env" (Q2Qc 0.9) (Q2Qc 0.6)
           [Update ["Windows"; "PowerShell"] (Q2Qc 0.7); DecayPass;
            Update ["PowerShell"] (Q2Qc 0.6)] ∅).
  - split; by vm_compute.
  - by vm_compute.
  - repeat constructor; by vm_compute.
Defined.

(** ** [decay_weights]: what a pass and several passes do *)

(** X7: a decay pass adds no key; with a decay factor in [0, 1] no
    non-negative weight gets larger; and on an empty dictionary the pass
    changes nothing. *)
Theorem decay_pass_shrinks (self : _TokenMemoryShim) (h : heap) (m : dict) :
  h !! token_weights self = Some m →
  ∃ m',
    decay_weights self h = Ok () (<[token_weights self := m']> h)
    ∧ dom m' ⊆ dom m
    ∧ (0 ≤ decay self → decay self ≤ 1 →
       ∀ t w w', m !! t = Some w → m' !! t = Some w' → 0 ≤ w → w' ≤ w)
    ∧ (m = ∅ → <[token_weights self := m']> h = h).
Proof.
  intros Hm. exists (decay_dict (decay self) m).
  split; [by apply decay_weights_run|]. split; [|split].
  - intros t [w' Ht]%elem_of_dom. rewrite decay_dict_lookup in Ht.
    apply elem_of_dom. destruct (m !! t); [eauto|done].
  - intros Hd0 Hd1 t w w' Ht. rewrite decay_dict_lookup, Ht. simpl.
    intros [-> _]%decay_entry_Some Hw.
    rewrite <-(Qcmult_1_r w) at 2. rewrite !(Qcmult_comm w).
    by apply Qcmult_le_compat_r.
  - intros ->. unfold decay_dict. rewrite omap_empty. by apply insert_id.
Qed.

Lemma decay_pass_shrinks_witness :
  ∃ m',
    decay_weights (shim_at_1 (Q2Qc 0.9)) (heap_of all_tools)
    = Ok () (<[1%positive := m']> (heap_of all_tools))
    ∧ dom m' ⊆ dom all_tools.
Proof.
  destruct (decay_pass_shrinks (shim_at_1 (Q2Qc 0.9)) (heap_of all_tools)
              all_tools) as (m' & Hrun & Hdom & _); [reflexivity|].
  exists m'. split; [exact Hrun|exact Hdom].
Defined.

(** X8: with a decay factor of 1 a pass leaves a store of weights that are
    all at least 1e-6 exactly as it was. *)
Theorem decay_one_is_identity (self : _TokenMemoryShim) (h : heap)
    (m : dict) :
  decay self = 1 →
  h !! token_weights self = Some m →
  (∀ t w, m !! t = Some w → Q2Qc 1e-6 ≤ w) →
  decay_weights self h = Ok () h.
Proof.
  intros Hd Hm Hbig. rewrite (decay_weights_run self h m Hm).
  f_equal. apply insert_id. rewrite Hm. f_equal.
  apply map_eq; intros t. rewrite decay_dict_lookup.
  destruct (m !! t) as [w|] eqn:Ht; simpl; [|done].
  symmetry. apply decay_entry_Some. rewrite Hd, Qcmult_1_r.
  split; [done|]. apply Qcle_not_lt. by apply (Hbig t).
Qed.

Lemma decay_one_is_identity_witness :
  decay_weights (shim_at_1 1) (heap_of all_tools) = Ok () (heap_of all_tools).
Proof.
  apply (decay_one_is_identity (shim_at_1 1) (heap_of all_tools) all_tools).
  - reflexivity.
  - reflexivity.
  - intros t w Ht.
    destruct (decide (t = "PandocInstalled")) as [->|?];
      [injection Ht as <-; by vm_compute|].
    destruct (decide (t = "PowerShell")) as [->|?];
      [injection Ht as <-; by vm_compute|].
    destruct (decide (t = "Windows")) as [->|?];
      [injection Ht as <-; by vm_compute|].
    unfold all_tools, windows_pwsh, windows_only in Ht.
    by rewrite !lookup_insert_ne, lookup_singleton_ne in Ht.
Defined.

(** X9: with a decay factor in [0, 1] and a weight [w >= 0], after [n >= 1]
    passes the token is in the store exactly when [w] multiplied [n] times
    by the decay factor, one multiplication per pass, is still at least
    1e-6, and then with that weight. *)
Theorem decay_passes_iterated (self : _TokenMemoryShim) (n : nat)
    (h : heap) (m : dict) (t : string) (w : Qc) :
  0 ≤ decay self → decay self ≤ 1 → 0 ≤ w →
  h !! token_weights self = Some m → m !! t = Some w →
  ∃ m',
    times (S n) (decay_weights self) h
      = Ok () (<[token_weights self := m']> h)
    ∧ m' !! t = if decide (decayed (decay self) (S n) w < Q2Qc 1e-6)
                then None
                else Some (decayed (decay self) (S n) w).
Proof.
  intros Hd0 Hd1 Hw Hm Ht. exists (decay_passes (decay self) (S n) m).
  split; [by apply times_decay_run|]. rewrite decayed_power.
  destruct (decide (w * decay self ^ S n < Q2Qc 1e-6)) as [Hlt|Hge].
  - apply (decay_passes_dead _ _ _ _ w); [done|].
    exists (S n). split; [lia|done].
  - apply decay_passes_alive; [done|]. intros j Hj Hlt. apply Hge.
    eapply Qcle_lt_trans; [|exact Hlt].
    apply decay_power_antitone; [done|done|done|lia].
Qed.

Lemma decay_passes_iterated_witness :
  ∃ m',
    times 3 (decay_weights (shim_at_1 (Q2Qc 0.5))) (heap_of windows_only)
    = Ok () (<[1%positive := m']> (heap_of windows_only))
    ∧ m' !! "Windows" = Some (Q2Qc 0.7 * Q2Qc 0.5 * Q2Qc 0.5 * Q2Qc 0.5).
Proof.
  destruct (decay_passes_iterated (shim_at_1 (Q2Qc 0.5)) 2
              (heap_of windows_only) windows_only "Windows" (Q2Qc 0.7))
    as (m' & Hrun & Hlook);
    [by vm_compute|by vm_compute|by vm_compute|reflexivity|reflexivity|].
  exists m'. split; [exact Hrun|].
  rewrite Hlook. by rewrite decide_False by (by vm_compute).
Defined.

(** ** Snapshots and instances *)

(** An operation on the tracker changes no dictionary but the store's own,
    which stays allocated. *)
Lemma run_op_frame (self : EnvironmentStateTracker) (op : store_op)
    (h : gmap positive (gmap string Qc)) (m : gmap string Qc) :
  h !! token_weights (mem self) = Some m →
  ∃ o h',
    run_op self op h = Ok o h'
    ∧ is_Some (h' !! token_weights (mem self))
    ∧ ∀ x v, x ≠ token_weights (mem self) → h !! x = Some v → h' !! x = Some v.
Proof.
  intros Hm. destruct op as [tokens i| | |key]; simpl.
  - eexists _, _. unfold observe. run.
    rewrite (update_weights_run _ _ _ h m Hm).
    split; [done|]. split; [rewrite lookup_insert_eq; eauto|].
    intros x v Hx Hv. by rewrite lookup_insert_ne.
  - eexists _, _. run. rewrite (decay_weights_run _ h m Hm).
    split; [done|]. split; [rewrite lookup_insert_eq; eauto|].
    intros x v Hx Hv. by rewrite lookup_insert_ne.
  - eexists _, _. run. rewrite (get_weights_run _ h m Hm).
    unfold dict_items. rewrite lookup_insert_eq.
    split; [done|]. split; [rewrite (alloc_lookup h _ m); eauto|].
    intros x v Hx Hv. by apply alloc_lookup.
  - eexists _, _. run. rewrite (hypothesis_run _ _ h m Hm).
    split; [done|]. split; [rewrite (alloc_lookup h _ m); eauto|].
    intros x v Hx Hv. by apply alloc_lookup.
Qed.

Lemma run_ops_frame (self : EnvironmentStateTracker) (ops : list store_op)
    (h : gmap positive (gmap string Qc)) :
  is_Some (h !! token_weights (mem self)) →
  ∃ os h',
    run_ops self ops h = Ok os h'
    ∧ is_Some (h' !! token_weights (mem self))
    ∧ ∀ x v, x ≠ token_weights (mem self) → h !! x = Some v → h' !! x = Some v.
Proof.
  revert h. induction ops as [|op ops IH]; intros h [m Hm].
  - exists [], h. split; [done|]. split; [eauto|done].
  - destruct (run_op_frame self op h m Hm) as (o & h1 & Hrun1 & Hl1 & Hf1).
    destruct (IH h1 Hl1) as (os & h2 & Hrun2 & Hl2 & Hf2).
    exists (o :: os), h2. split; [|split; [done|]].
    + simpl. run. by rewrite Hrun1, Hrun2.
    + intros x v Hx Hv. apply Hf2; [done|]. by apply Hf1.
Qed.

(** X10: a snapshot keeps the contents it was taken with through every later
    sequence of operations on the tracker, and a snapshot taken afterwards is
    another dictionary, different from the first and from the store's own. *)
Theorem snapshot_keeps_contents (self : EnvironmentStateTracker) (h : heap)
    (m : dict) (ops : list store_op) :
  h !! token_weights (mem self) = Some m →
  ∃ r h1 os h2 r' h3,
    get_weights (mem self) h = Ok r h1
    ∧ h1 !! r = Some m
    ∧ run_ops self ops h1 = Ok os h2
    ∧ h2 !! r = Some m
    ∧ get_weights (mem self) h2 = Ok r' h3
    ∧ r' ≠ r ∧ r' ≠ token_weights (mem self)
    ∧ h3 !! r = Some m.
Proof.
  intros Hm. set (r := fresh (dom h)). set (h1 := <[r := m]> h).
  assert (Hr : r ≠ token_weights (mem self)).
  { intros Heq. by apply (fresh_not_allocated h _ m Hm). }
  assert (Hm1 : h1 !! token_weights (mem self) = Some m)
    by (by apply alloc_lookup).
  destruct (run_ops_frame self ops h1) as (os & h2 & Hrun & [m2 Hm2] & Hframe);
    [eauto|].
  assert (Hr2 : h2 !! r = Some m).
  { apply Hframe; [done|]. apply lookup_insert_eq. }
  exists r, h1, os, h2, (fresh (dom h2)), (<[fresh (dom h2) := m2]> h2).
  split; [by apply get_weights_run|]. split; [apply lookup_insert_eq|].
  split; [done|]. split; [done|]. split; [by apply get_weights_run|].
  split; [|split].
  - intros Heq. by apply (fresh_not_allocated h2 r m Hr2).
  - intros Heq. by apply (fresh_not_allocated h2 _ m2 Hm2).
  - by apply alloc_lookup.
Qed.

Lemma snapshot_keeps_contents_witness :
  ∃ r h1 os h2,
    get_weights (shim_at_1 (Q2Qc 0.9)) (heap_of all_tools) = Ok r h1
    ∧ run_ops (tracker_at_1 (Q2Qc 0.9) (Q2Qc 0.6))
        [OpObserve ["Windows"] (Q2Qc 0.5); OpDecay] h1 = Ok os h2
    ∧ h2 !! r = Some all_tools.
Proof.
  destruct (snapshot_keeps_contents (tracker_at_1 (Q2Qc 0.9) (Q2Qc 0.6))
              (heap_of all_tools) all_tools
              [OpObserve ["Windows"] (Q2Qc 0.5); OpDecay])
    as (r & h1 & os & h2 & _ & _ & Hget & _ & Hrun & Hkeep & _);
    [reflexivity|].
  exists r, h1, os, h2. split; [exact Hget|]. split; [exact Hrun|exact Hkeep].
Defined.

Lemma run_calls_run (self : _TokenMemoryShim) (calls : list call)
    (h : gmap positive (gmap string Qc)) (m : gmap string Qc) :
  h !! token_weights self = Some m →
  ∃ m', for_ calls (run_call self) h = Ok () (<[token_weights self := m']> h).
Proof.
  revert h m. induction calls as [|c cs IH]; intros h m Hm.
  - exists m. simpl. run. by rewrite insert_id.
  - assert (∃ m1, run_call self c h = Ok () (<[token_weights self := m1]> h))
      as [m1 Hrun1].
    { destruct c as [tokens i|]; simpl; eexists;
        [by apply update_weights_run|by apply decay_weights_run]. }
    destruct (IH (<[token_weights self := m1]> h) m1) as [m2 Hrun2];
      [apply lookup_insert_eq|].
    exists m2. simpl. run. rewrite Hrun1, Hrun2. by rewrite insert_insert_eq.
Qed.

(** X11: every constructed store has a dictionary of its own: of two stores
    made one after the other, whatever calls the first receives, none raises
    and the second is still empty. *)
Theorem instances_are_independent (name1 name2 : string) (d1 d2 : Qc)
    (calls : list call) (h0 : heap) :
  ∃ s1 h1 s2 h2 h3,
    _TokenMemoryShim_init name1 d1 h0 = Ok s1 h1
    ∧ _TokenMemoryShim_init name2 d2 h1 = Ok s2 h2
    ∧ token_weights s1 ≠ token_weights s2
    ∧ for_ calls (run_call s1) h2 = Ok () h3
    ∧ h3 !! token_weights s2 = Some ∅.
Proof.
  set (h1 := <[fresh (dom h0) := ∅]> h0).
  set (h2 := <[fresh (dom h1) := ∅]> h1).
  set (s1 := {| name := name1; decay := d1; token_weights := fresh (dom h0) |}).
  set (s2 := {| name := name2; decay := d2; token_weights := fresh (dom h1) |}).
  assert (H1 : h1 !! token_weights s1 = Some ∅) by apply lookup_insert_eq.
  assert (Hne : token_weights s1 ≠ token_weights s2)
    by (by apply (fresh_not_allocated h1 _ ∅)).
  assert (H2 : h2 !! token_weights s1 = Some ∅) by (by apply alloc_lookup).
  destruct (run_calls_run s1 calls h2 ∅ H2) as [m' Hrun].
  exists s1, h1, s2, h2, (<[token_weights s1 := m']> h2).
  split; [apply init_run|]. split; [apply init_run|]. split; [done|].
  split; [done|]. rewrite lookup_insert_ne by done. apply lookup_insert_eq.
Qed.

(** ** Beliefs *)

Lemma occurrences_pos t (tokens : list string) :
  t ∈ tokens → ∃ k, occurrences t tokens = S k.
Proof.
  induction tokens as [|x ts IH]; intros Hin; [by apply elem_of_nil in Hin|].
  rewrite occurrences_cons. case_decide as Hx; [eauto|].
  apply IH. by apply elem_of_cons in Hin as [->|Hin].
Qed.

Lemma geometric_ge_1 (d : Qc) (k : nat) : 0 ≤ d → 1 ≤ geometric d (S k).
Proof.
  intros Hd. induction k as [|k IH].
  - simpl. by rewrite Qcplus_0_r.
  - change (geometric d (S (S k))) with (d ^ S k + geometric d (S k)).
    rewrite <-(Qcplus_0_l 1). apply Qcplus_le_compat; [|done].
    by apply Qcpower_pos.
Qed.

Lemma observe_hypothesis_run (self : EnvironmentStateTracker) tokens i key
    (h : gmap positive (gmap string Qc)) (m : gmap string Qc) :
  h !! token_weights (mem self) = Some m →
  ∃ h', (observe self tokens i;; hypothesis self key) h
        = Ok (holds self (update_dict (decay (mem self)) i tokens m) key) h'.
Proof.
  intros Hm. unfold observe, mbind, M_bind.
  rewrite (update_weights_run _ _ _ h m Hm).
  rewrite (hypothesis_run self key _ _ (lookup_insert_eq _ _ _)). eauto.
Qed.

(** X12: one observation is enough to establish a belief: if the store's
    weight for [key] is not negative, the decay factor is not negative, and
    [key] is in the observed tokens at an intensity that is not negative and
    reaches the threshold, then [hypothesis key] is true afterwards. *)
Theorem observation_establishes_belief (self : EnvironmentStateTracker)
    (tokens : list string) (i : Qc) (key : string) (h : heap) (m : dict) :
  h !! token_weights (mem self) = Some m →
  0 ≤ decay (mem self) → 0 ≤ default 0 (m !! key) →
  0 ≤ i → threshold self ≤ i → key ∈ tokens →
  ∃ h', (observe self tokens i;; hypothesis self key) h = Ok true h'.
Proof.
  intros Hm Hd Hprev Hi Hthr Hin.
  destruct (observe_hypothesis_run self tokens i key h m Hm) as [h' Hrun].
  exists h'. rewrite Hrun. f_equal. apply bool_decide_eq_true.
  rewrite update_dict_lookup.
  destruct (occurrences_pos key tokens Hin) as [k ->]. cbn [default].
  trans i; [done|]. set (d := decay (mem self)) in *.
  trans (i * geometric d (S k)).
  - rewrite <-(Qcmult_1_r i) at 1. rewrite !(Qcmult_comm i).
    apply Qcmult_le_compat_r; [by apply geometric_ge_1|done].
  - rewrite <-(Qcplus_0_l (i * _)) at 1.
    apply Qcplus_le_compat; [|done].
    apply Qcmult_nonneg_nonneg; [done|by apply Qcpower_pos].
Qed.

Lemma observation_establishes_belief_witness :
  ∃ h', (observe (tracker_at_1 (Q2Qc 0.9) (Q2Qc 0.6))
           ["PandocInstalled"; "PDFExportSuccess"] (Q2Qc 0.8);;
         hypothesis (tracker_at_1 (Q2Qc 0.9) (Q2Qc 0.6)) "PandocInstalled")
          (heap_of windows_pwsh) = Ok true h'.
Proof.
  apply (observation_establishes_belief (tracker_at_1 (Q2Qc 0.9) (Q2Qc 0.6))
           ["PandocInstalled"; "PDFExportSuccess"] (Q2Qc 0.8)
           "PandocInstalled" (heap_of windows_pwsh) windows_pwsh).
  - reflexivity.
  - by vm_compute.
  - by vm_compute.
  - by vm_compute.
  - by vm_compute.
  - apply list_elem_of_here.
Defined.

(** X13: an observation can also take a belief away: when the weight of
    [key] reaches the threshold but [weight * decay + i] does not,
    [hypothesis key] is true before [observe [key] i] and false after it. *)
Theorem observation_can_lower_belief (self : EnvironmentStateTracker)
    (i : Qc) (key : string) (h : heap) (m : dict) (w : Qc) :
  h !! token_weights (mem self) = Some m → m !! key = Some w →
  threshold self ≤ w → w * decay (mem self) + i < threshold self →
  (∃ h', hypothesis self key h = Ok true h')
  ∧ (∃ h', (observe self [key] i;; hypothesis self key) h = Ok false h').
Proof.
  intros Hm Hkey Hbefore Hafter. split.
  - eexists. rewrite (hypothesis_run self key h m Hm). f_equal.
    apply bool_decide_eq_true. by rewrite Hkey.
  - destruct (observe_hypothesis_run self [key] i key h m Hm) as [h' Hrun].
    exists h'. rewrite Hrun. f_equal. apply bool_decide_eq_false.
    cbn. unfold update_step. rewrite lookup_insert_eq, Hkey. cbn.
    by apply Qclt_not_le.
Qed.

Lemma observation_can_lower_belief_witness :
  (∃ h', hypothesis (tracker_at_1 (Q2Qc 0.5) (Q2Qc 0.6)) "Windows"
           (heap_of windows_only) = Ok true h')
  ∧ (∃ h', (observe (tracker_at_1 (Q2Qc 0.5) (Q2Qc 0.6)) ["Windows"]
              (Q2Qc 0.1);;
            hypothesis (tracker_at_1 (Q2Qc 0.5) (Q2Qc 0.6)) "Windows")
             (heap_of windows_only) = Ok false h').
Proof.
  apply (observation_can_lower_belief (tracker_at_1 (Q2Qc 0.5) (Q2Qc 0.6))
           (Q2Qc 0.1) "Windows" (heap_of windows_only) windows_only
           (Q2Qc 0.7)).
  - reflexivity.
  - reflexivity.
  - by vm_compute.
  - by vm_compute.
Defined.

(** X14: what decay passes leave of a belief: with a decay factor in
    [0, 1], a weight [w >= 0] and a positive threshold, after [n >= 1] passes
    [hypothesis key] is true exactly when [w] multiplied [n] times by the
    decay factor still reaches the threshold and is still at least 1e-6. *)
Theorem belief_after_decay (self : EnvironmentStateTracker) (key : string)
    (n : nat) (h : heap) (m : dict) (w : Qc) :
  0 ≤ decay (mem self) → decay (mem self) ≤ 1 → 0 ≤ w →
  0 < threshold self →
  h !! token_weights (mem self) = Some m → m !! key = Some w →
  ∃ b h',
    (times (S n) (decay_weights (mem self));; hypothesis self key) h
      = Ok b h'
    ∧ (b = true ↔
       threshold self ≤ decayed (decay (mem self)) (S n) w
       ∧ ¬ decayed (decay (mem self)) (S n) w < Q2Qc 1e-6).
Proof.
  intros Hd0 Hd1 Hw Hthr Hm Hkey. set (d := decay (mem self)) in *.
  eexists _, _. split.
  - unfold mbind, M_bind. rewrite (times_decay_run _ (S n) h m Hm).
    by rewrite (hypothesis_run self key _ _ (lookup_insert_eq _ _ _)).
  - unfold holds. rewrite bool_decide_eq_true. fold d.
    rewrite decayed_power.
    destruct (decide (w * d ^ S n < Q2Qc 1e-6)) as [Hlt|Hge].
    + rewrite (decay_passes_dead d (S n) m key w Hkey)
        by (exists (S n); split; [lia|done]).
      cbn [default]. split; [|by intros [_ ?]].
      intros Hle. by apply Qclt_not_le in Hthr.
    + rewrite (decay_passes_alive d (S n) m key w Hkey).
      * cbn [default]. split; [done|by intros [? _]].
      * intros j Hj Hlt. apply Hge. eapply Qcle_lt_trans; [|exact Hlt].
        apply decay_power_antitone; [done|done|done|lia].
Qed.

Lemma belief_after_decay_witness :
  ∃ b h',
    (times 2 (decay_weights (shim_at_1 (Q2Qc 0.9)));;
     hypothesis (tracker_at_1 (Q2Qc 0.9) (Q2Qc 0.6)) "Windows")
      (heap_of all_tools) = Ok b h'
    ∧ (b = true ↔
       Q2Qc 0.6 ≤ decayed (Q2Qc 0.9) 2 (Q2Qc 0.7)
       ∧ ¬ decayed (Q2Qc 0.9) 2 (Q2Qc 0.7) < Q2Qc 1e-6).
Proof.
  apply (belief_after_decay (tracker_at_1 (Q2Qc 0.9) (Q2Qc 0.6)) "Windows" 1
           (heap_of all_tools) all_tools (Q2Qc 0.7)).
  - by vm_compute.
  - by vm_compute.
  - by vm_compute.
  - reflexivity.
  - reflexivity.
  - reflexivity.
Defined.

(** ** The policy: fresh trackers, extensions, and what it looks at *)

(** X15: before any observation the policy asks the clarifying question: on
    a tracker just created with a positive threshold, and so on a controller
    created with its default tracker, whatever the path and the engine. *)
Theorem fresh_tracker_asks_question (path engine : string) (h0 : heap) :
  (∀ d θ, 0 < θ →
     ∃ e h1 h2,
       EnvironmentStateTracker_init d θ h0 = Ok e h1
       ∧ policy_for_pdf_request {| env := e |} path engine h1
         = Ok clarify_decision h2)
  ∧ (∃ c h1 h2,
       RelationalController_init h0 = Ok c h1
       ∧ policy_for_pdf_request c path engine h1 = Ok clarify_decision h2).
Proof.
  assert (Hfresh : ∀ d θ, 0 < θ →
    ∃ e h1 h2,
      EnvironmentStateTracker_init d θ h0 = Ok e h1
      ∧ policy_for_pdf_request {| env := e |} path engine h1
        = Ok clarify_decision h2).
  { intros d θ Hθ.
    set (e := {| mem := {| name := "Env"; decay := d;
                           token_weights := fresh (dom h0) |};
                 threshold := θ |}).
    set (h1 := <[fresh (dom h0) := ∅]> h0).
    destruct (policy_run {| env := e |} path engine h1 ∅) as (h2 & _ & Hrun);
      [apply lookup_insert_eq|].
    exists e, h1, h2. split; [done|]. rewrite Hrun.
    assert (Hno : ∀ key, holds e ∅ key = false).
    { intros key. apply bool_decide_eq_false. rewrite lookup_empty. cbn.
      by apply Qclt_not_le. }
    cbn [env]. by rewrite !Hno. }
  split; [done|].
  destruct (Hfresh (Q2Qc 0.95) (Q2Qc 0.6)) as (e & h1 & h2 & Hinit & Hrun);
    [reflexivity|].
  exists {| env := e |}, h1, h2. split; [|done].
  unfold RelationalController_init, mbind, M_bind. by rewrite Hinit.
Qed.

Lemma fresh_tracker_asks_question_witness :
  ∃ e h1 h2,
    EnvironmentStateTracker_init (Q2Qc 0.9) (Q2Qc 0.6) ∅ = Ok e h1
    ∧ policy_for_pdf_request {| env := e |} "notes.md" "xelatex" h1
      = Ok clarify_decision h2.
Proof.
  apply (fresh_tracker_asks_question "notes.md" "xelatex" ∅). reflexivity.
Defined.

Lemma substring_app_l (s ext : string) :
  substring 0 (String.length s) (s +:+ ext) = s.
Proof.
  induction s as [|c s IH].
  - by destruct ext.
  - change (String c s +:+ ext) with (String c (s +:+ ext)).
    cbn [String.length substring]. by rewrite IH.
Qed.

Lemma string_length_app (s ext : string) :
  String.length (s +:+ ext) = (String.length s + String.length ext)%nat.
Proof.
  induction s as [|c s IH]; [done|].
  change (String c s +:+ ext) with (String c (s +:+ ext)).
  cbn [String.length]. by rewrite IH.
Qed.

Lemma slice_to_extension (stem ext : string) :
  String.length ext = 3%nat → slice_to (stem +:+ ext) (-3) = stem.
Proof.
  intros Hext. unfold slice_to. change (-3 <? 0)%Z with true. cbv iota.
  rewrite string_length_app, Hext.
  replace (Z.to_nat (Z.max 0 (-3 + Z.of_nat (String.length stem + 3))))
    with (String.length stem) by lia.
  apply substring_app_l.
Qed.

(** X16: for a path that ends in an extension of three characters, a dot
    counted, such as ".md", the direct conversion command names the path
    with that extension replaced by ".pdf" as its output. *)
Theorem direct_command_replaces_extension (self : RelationalController)
    (stem ext engine : string) (h : heap) (m : dict) :
  h !! token_weights (mem (env self)) = Some m →
  threshold (env self) ≤ default 0 (m !! "Windows") →
  threshold (env self) ≤ default 0 (m !! "PowerShell") →
  threshold (env self) ≤ default 0 (m !! "PandocInstalled") →
  String.length ext = 3%nat →
  ∃ h',
    policy_for_pdf_request self (stem +:+ ext) engine h
    = Ok {| assumption := "Windows + PowerShell + Pandoc present";
            action := "Provide direct conversion command";
            command :=
              "pandoc " +:+ dquote +:+ (stem +:+ ext) +:+ dquote +:+ " -o "
                +:+ dquote +:+ stem +:+ ".pdf" +:+ dquote
                +:+ " --pdf-engine=" +:+ engine |} h'.
Proof.
  intros Hm Hw Hp Hd Hext.
  destruct (policy_run self (stem +:+ ext) engine h m Hm) as (h' & _ & Hrun).
  exists h'. rewrite Hrun. unfold holds. rewrite !bool_decide_eq_true_2 by done.
  cbn [andb]. unfold direct_decision, direct_command.
  by rewrite slice_to_extension.
Qed.

Lemma direct_command_replaces_extension_witness :
  ∃ h',
    policy_for_pdf_request {| env := tracker_at_1 (Q2Qc 0.9) (Q2Qc 0.6) |}
      ("notes" +:+ ".md") "xelatex" (heap_of all_tools)
    = Ok {| assumption := "Windows + PowerShell + Pandoc present";
            action := "Provide direct conversion command";
            command :=
              "pandoc " +:+ dquote +:+ ("notes" +:+ ".md") +:+ dquote
                +:+ " -o " +:+ dquote +:+ "notes" +:+ ".pdf" +:+ dquote
                +:+ " --pdf-engine=" +:+ "xelatex" |} h'.
Proof.
  apply (direct_command_replaces_extension
           {| env := tracker_at_1 (Q2Qc 0.9) (Q2Qc 0.6) |}
           "notes" ".md" "xelatex" (heap_of all_tools) all_tools).
  - reflexivity.
  - by vm_compute.
  - by vm_compute.
  - by vm_compute.
  - reflexivity.
Defined.

(** X17: the policy looks at three weights and at nothing else: on two
    stores that hold the same entries for "Windows", "PowerShell" and
    "PandocInstalled" it returns the same record, whatever other tokens they
    hold; in particular a second call returns what the first returned. *)
Theorem policy_reads_three_weights (self : RelationalController)
    (path engine : string) (h h' : heap) (m m' : dict) :
  h !! token_weights (mem (env self)) = Some m →
  h' !! token_weights (mem (env self)) = Some m' →
  (∀ key, key ∈ ["Windows"; "PowerShell"; "PandocInstalled"] →
          m !! key = m' !! key) →
  ∃ dec h1 h1' h2,
    policy_for_pdf_request self path engine h = Ok dec h1
    ∧ policy_for_pdf_request self path engine h' = Ok dec h1'
    ∧ policy_for_pdf_request self path engine h1 = Ok dec h2.
Proof.
  intros Hm Hm' Hsame.
  destruct (policy_run self path engine h m Hm) as (h1 & Hsub & Hrun).
  destruct (policy_run self path engine h' m' Hm') as (h1' & _ & Hrun').
  destruct (policy_run self path engine h1 m) as (h2 & _ & Hrun2);
    [by eapply lookup_weaken|].
  eexists _, h1, h1', h2. split; [exact Hrun|]. split; [|exact Hrun2].
  rewrite Hrun'. unfold holds. by rewrite !Hsame by in_list.
Qed.

Lemma policy_reads_three_weights_witness :
  ∃ dec h1 h1',
    policy_for_pdf_request {| env := tracker_at_1 (Q2Qc 0.9) (Q2Qc 0.6) |}
      "notes.md" "xelatex" (heap_of all_tools) = Ok dec h1
    ∧ policy_for_pdf_request {| env := tracker_at_1 (Q2Qc 0.9) (Q2Qc 0.6) |}
        "notes.md" "xelatex"
        (heap_of (<["PDFExportSuccess" := Q2Qc 0.8]> all_tools))
      = Ok dec h1'.
Proof.
  destruct (policy_reads_three_weights
              {| env := tracker_at_1 (Q2Qc 0.9) (Q2Qc 0.6) |}
              "notes.md" "xelatex" (heap_of all_tools)
              (heap_of (<["PDFExportSuccess" := Q2Qc 0.8]> all_tools))
              all_tools (<["PDFExportSuccess" := Q2Qc 0.8]> all_tools))
    as (dec & h1 & h1' & _ & Hrun & Hrun' & _); [reflexivity|reflexivity| |].
  - intros key Hkey.
    repeat (apply elem_of_cons in Hkey as [->|Hkey]; [reflexivity|]).
    by apply elem_of_nil in Hkey.
  - exists dec, h1, h1'. split; [exact Hrun|exact Hrun'].
Defined.

(** * What rounding changes *)

(** The statements above hold of exact arithmetic.  On binary64 numbers the
    same loops round after every product and every sum, and sums can
    overflow: equalities that exact arithmetic excludes occur, closed forms
    are missed in the last digit, and an infinite weight is never pruned. *)

Module Binary64_examples.
Import PrimFloat.
#[local] Set Warnings "-inexact-float".

(** With the largest decay factor below 1, two updates at intensity 1 leave
    exactly 2. *)
Example update_twice_below_one :
  Binary64.update_dict Binary64.below_one 1 ["X"; "X"] ∅ = {[ "X" := 2%float ]}.
Proof. vm_compute. reflexivity. Qed.

(** Two steps at decay 0.9 and intensity 0.7 from an absent token: the loop
    leaves 1.3300000000000001, and the closed form
    [0 * 0.9^2 + 0.7 * (0.9 + 1)] evaluates to 1.3299999999999998. *)
Example update_twice_and_closed_form :
  Binary64.update_dict 0.9 0.7 ["X"; "X"] ∅
  = {[ "X" := 1.3300000000000001%float ]}
  ∧ (0 * (0.9 * 0.9) + 0.7 * (0.9 + 1))%float = 1.3299999999999998%float
  ∧ (1.3300000000000001 =? 1.3299999999999998)%float = false.
Proof. repeat split; vm_compute; reflexivity. Qed.

(** Two passes are two rounded products: [(0.7 * 0.9) * 0.9] is not
    [0.7 * (0.9 * 0.9)]. *)
Example decay_twice_is_iterated :
  Nat.iter 2 (Binary64.decay_dict 0.9) {[ "X" := 0.7%float ]}
  = {[ "X" := (0.7 * 0.9 * 0.9)%float ]}
  ∧ (0.7 * 0.9 * 0.9 =? 0.7 * (0.9 * 0.9))%float = false.
Proof. split; vm_compute; reflexivity. Qed.

(** Two updates at intensity 1e308 overflow to infinity, and no number of
    decay passes at decay 0.9 removes an infinite weight. *)
Example infinite_weight_stays (n : nat) :
  Binary64.update_dict 0.9 1e308 ["X"; "X"] ∅ = {[ "X" := infinity ]}
  ∧ Nat.iter n (Binary64.decay_dict 0.9) {[ "X" := infinity ]}
    = {[ "X" := infinity ]}.
Proof.
  split; [vm_compute; reflexivity|].
  induction n as [|n IH]; [done|].
  rewrite Nat.iter_succ, IH. vm_compute. reflexivity.
Qed.

(** The demo's arithmetic comes out the same: 0.7, [0.7 * 0.9 + 0.6 = 1.23],
    0.8 and 0.8, all at least the threshold 0.6 where the policy looks. *)
Example demo_weights_binary64 :
  Binary64.update_dict 0.9 0.6 ["PowerShell"]
    (Binary64.update_dict 0.9 0.8 ["PandocInstalled"; "PDFExportSuccess"]
       (Binary64.update_dict 0.9 0.7 ["Windows"; "PowerShell"] ∅))
  = <["PDFExportSuccess" := 0.8%float]>
      (<["PandocInstalled" := 0.8%float]>
         (<["PowerShell" := 1.23%float]> {[ "Windows" := 0.7%float ]}))
  ∧ (0.6 <=? 0.7)%float = true ∧ (0.6 <=? 1.23)%float = true
  ∧ (0.6 <=? 0.8)%float = true.
Proof. repeat split; vm_compute; reflexivity. Qed.

End Binary64_examples.
